(** * accessory: the accessor generator (package [generator])

    A shallow embedding of [generator.go]: the walk over the package
    model, the two accessor templates, the import table, the assembly of
    the output buffer and the naming helpers, together with the
    properties the specification states about them.

    Go strings are byte strings; they are modelled by [string], whose
    characters are 8-bit [ascii] values. *)

From Stdlib Require Import NArith Ascii.
From Stdlib Require String.
From stdpp Require Import gmap strings list fin_maps sorting.

Local Open Scope string_scope.

(** ** Bytes *)

Definition code (c : ascii) : N := N_of_ascii c.

Definition isUpper (c : ascii) : bool := ((65 <=? code c) && (code c <=? 90))%N.
Definition isLower (c : ascii) : bool := ((97 <=? code c) && (code c <=? 122))%N.
Definition isDigit (c : ascii) : bool := ((48 <=? code c) && (code c <=? 57))%N.

(** [utf8.RuneSelf] is 0x80: bytes below it are single-byte runes. *)
Definition isASCII (c : ascii) : bool := (code c <? 128)%N.

Definition lowerByte (c : ascii) : ascii :=
  if isUpper c then ascii_of_N (code c + 32) else c.
Definition upperByte (c : ascii) : ascii :=
  if isLower c then ascii_of_N (code c - 32) else c.

Definition nl : string := String (ascii_of_N 10) "".
Definition tab : string := String (ascii_of_N 9) "".
Definition dq : string := String (ascii_of_N 34) "".

(** ** The Go library functions the generator calls *)

(** [strings.TrimPrefix(s, "*")]. *)
Definition TrimPrefix_star (s : string) : string :=
  match s with
  | String "*" rest => rest
  | _ => s
  end.

(** [strings.Split(s, ".")]: the pieces of [s] between the dots; the
    result always has at least one element. *)
Fixpoint Split_dot (s : string) : list string :=
  match s with
  | "" => [""]
  | String c rest =>
      if Ascii.eqb c "." then "" :: Split_dot rest
      else match Split_dot rest with
           | piece :: pieces => String c piece :: pieces
           | [] => [String c ""]
           end
  end.

(** [strings.ToLower].  Go lowers ASCII text byte by byte and otherwise
    maps [unicode.ToLower] over the decoded runes.  The model is exact on
    ASCII bytes and on the two-byte encodings of U+0080..U+00FF (where the
    only upper-case letters are U+00C0..U+00DE without U+00D7, encoded
    0xC3 0x80..0x9E); other multi-byte sequences are copied. *)
Definition isLatin1UpperTail (d : ascii) : bool :=
  ((128 <=? code d) && (code d <=? 158) && negb (code d =? 151))%N.

Fixpoint ToLower (s : string) : string :=
  match s with
  | "" => ""
  | String c rest =>
      if isASCII c then String (lowerByte c) (ToLower rest)
      else
        match rest with
        | String d rest' =>
            if ((code c =? 195)%N && isLatin1UpperTail d)%bool
            then String c (String (ascii_of_N (code d + 32)) (ToLower rest'))
            else String c (ToLower rest)
        | "" => String c ""
        end
  end.

(** [strings.Title]: every letter that begins a word is mapped to title
    case; a word begins after a separator, and the scan starts as if a
    space came before the text.  [isSeparator] is Go's on ASCII (letters,
    digits and the underscore are not separators, every other ASCII byte
    is).  Bytes from 0x80 on belong to multi-byte runes, for which Go
    consults the Unicode tables; the model copies them and does not treat
    them as separators, so it is exact on ASCII text only. *)
Definition isSeparator (c : ascii) : bool :=
  if isASCII c
  then negb (isDigit c || isLower c || isUpper c || Ascii.eqb c "_")
  else false.

Fixpoint Title_from (prev : ascii) (s : string) : string :=
  match s with
  | "" => ""
  | String c rest =>
      String (if isSeparator prev then upperByte c else c) (Title_from c rest)
  end.

Definition Title (s : string) : string := Title_from " " s.

(** [string(b)] for a byte [b]: the UTF-8 encoding of the code point
    whose number is [b] (two bytes from 0x80 on). *)
Definition string_of_byte (b : ascii) : string :=
  if isASCII b then String b ""
  else String (ascii_of_N (192 + code b / 64))
         (String (ascii_of_N (128 + code b mod 64)) "").

(** [filepath.Base] with the slash as separator. *)
Fixpoint dropTrailingSlashes (s : string) : string :=
  match s with
  | "" => ""
  | String c rest =>
      match dropTrailingSlashes rest with
      | "" => if Ascii.eqb c "/" then "" else String c ""
      | rest' => String c rest'
      end
  end.

Fixpoint lastElement (s : string) : string :=
  match s with
  | "" => ""
  | String c rest =>
      if existsb (Ascii.eqb "/") (String.list_ascii_of_string rest)
      then lastElement rest
      else if Ascii.eqb c "/" then rest else s
  end.

Definition Base (path : string) : string :=
  if String.eqb path "" then "."
  else
    match lastElement (dropTrailingSlashes path) with
    | "" => "/"
    | elem => elem
    end.

(** [filepath.Join(dir, output)] with the slash as separator: the first
    non-empty element and what follows it are joined by slashes and the
    result is cleaned ([filepath.Clean]): empty and [.] elements are
    dropped, [..] removes the element before it (nothing above the root, and
    kept in front of a relative path), and the empty result is [.]. *)
Fixpoint Split_slash (s : string) : list string :=
  match s with
  | "" => [""]
  | String c rest =>
      if Ascii.eqb c "/" then "" :: Split_slash rest
      else match Split_slash rest with
           | piece :: pieces => String c piece :: pieces
           | [] => [String c ""]
           end
  end.

(** [ups] counts the [..] elements kept in front, [stack] holds the
    elements after them, last one first. *)
Fixpoint cleanElems (rooted : bool) (ups : nat) (stack : list string)
    (elems : list string) : nat * list string :=
  match elems with
  | [] => (ups, stack)
  | e :: elems' =>
      if String.eqb e "" || String.eqb e "." then
        cleanElems rooted ups stack elems'
      else if String.eqb e ".." then
        match stack with
        | _ :: stack' => cleanElems rooted ups stack' elems'
        | [] => cleanElems rooted (if rooted then ups else S ups) [] elems'
        end
      else cleanElems rooted ups (e :: stack) elems'
  end.

Fixpoint joinSlash (elems : list string) : string :=
  match elems with
  | [] => ""
  | [e] => e
  | e :: elems' => e +:+ "/" +:+ joinSlash elems'
  end.

Definition Clean (path : string) : string :=
  match path with
  | "" => "."
  | String c _ =>
      let rooted := Ascii.eqb c "/" in
      let '(ups, stack) := cleanElems rooted 0 [] (Split_slash path) in
      let body := joinSlash (replicate ups ".." ++ rev stack) in
      if rooted then "/" +:+ body
      else if String.eqb body "" then "." else body
  end.

Definition Join (dir output : string) : string :=
  if negb (String.eqb dir "") then Clean (dir +:+ "/" +:+ output)
  else if negb (String.eqb output "") then Clean output
  else "".


(** ** The two rewrite passes of [outputFile]

    [regexp.MustCompile(re).ReplaceAllString(s, "${1}_${2}")] replaces
    every match of [re], found from left to right without overlap, by its
    two groups with an underscore between them.  [.] matches any character
    but the line feed; the classes [[A-Z]], [[a-z]] and [[0-9]] are ASCII,
    so a scan over bytes puts the underscores where the scan over runes
    does. *)

(** [(.)([A-Z][a-z]+)].  [inrun] says that the scan is inside the
    [[a-z]+] of the match in progress: those letters belong to it and
    cannot begin the next match. *)
Fixpoint firstCap_scan (inrun : bool) (s : string) : string :=
  match s with
  | "" => ""
  | String c rest =>
      if inrun && isLower c then String c (firstCap_scan true rest)
      else
        match rest with
        | String u after =>
            match after with
            | String l _ =>
                if negb (Ascii.eqb c (ascii_of_N 10)) && isUpper u && isLower l
                then String c (String "_" (String u (firstCap_scan true after)))
                else String c (firstCap_scan false rest)
            | "" => String c (firstCap_scan false rest)
            end
        | "" => String c ""
        end
  end.

Definition firstCapMatcher_replace (s : string) : string := firstCap_scan false s.

(** [([a-z0-9])([A-Z])]: both characters of a match are consumed. *)
Fixpoint articleCapMatcher_replace (s : string) : string :=
  match s with
  | "" => ""
  | String c rest =>
      match rest with
      | String u after =>
          if (isLower c || isDigit c) && isUpper u
          then String c (String "_" (String u (articleCapMatcher_replace after)))
          else String c (articleCapMatcher_replace rest)
      | "" => String c ""
      end
  end.


(** ** The package model ([internal/types]) *)

(** Modelled from the spec: the declarations of [types.Package],
    [types.File], [types.Import], [types.Struct], [types.Field] and
    [types.Tag], which are not among the sources.  The fields are those the
    generator reads ([Name], [Dir], [Files]; [Imports], [Structs]; [Name],
    [PkgPath]; [Name], [Fields]; [Name], [DataType], [Tag]; [Setter],
    [Getter]), with the types of the specification's data model.  The two
    tag entries are [*string] in the code: [None] is the nil pointer (the
    accessor is absent), [Some ""] asks for the default name and any other
    [Some m] gives the name. *)

Record Tag := { tag_Setter : option string; tag_Getter : option string }.
Record Field := { fld_Name : string; fld_DataType : string; fld_Tag : option Tag }.
Record Struct := { st_Name : string; st_Fields : list Field }.
Record Import := { imp_Name : string; imp_PkgPath : string }.
Record File := { file_Imports : list Import; file_Structs : list Struct }.
Record Package := { pkg_Name : string; pkg_Dir : string; pkg_Files : list File }.

(** ** Results

    A Go call returns normally, returns an error, or panics. *)

Definition error := string.

Inductive result (A : Type) : Type :=
  | Ok (a : A)
  | Err (e : error)
  | Panic (msg : string).
Arguments Ok {A} a.
Arguments Err {A} e.
Arguments Panic {A} msg.

Definition bind {A B} (r : result A) (k : A -> result B) : result B :=
  match r with
  | Ok a => k a
  | Err e => Err e
  | Panic m => Panic m
  end.

Notation "x <- r ;; k" := (bind r (fun x => k))
  (at level 100, r at next level, right associativity).

Definition index_out_of_range : string := "index out of range [0] with length 0".
Definition nil_dereference : string := "invalid memory address or nil pointer dereference".

(** ** Naming *)

(** [receiverName]: [structName[0]] panics on the empty string. *)
Definition receiverName (userInput structName : string) : result string :=
  if negb (String.eqb userInput "") then Ok userInput
  else
    match structName with
    | String b _ => Ok (ToLower (string_of_byte b))
    | "" => Panic index_out_of_range
    end.

Definition outputFile (output typeName dir : string) : string :=
  let output :=
    if String.eqb output "" then
      let name := firstCapMatcher_replace typeName in
      let name := articleCapMatcher_replace name in
      ToLower (name +:+ "_accessor.go")
    else output in
  Join dir output.


(** ** The accessor templates

    Executing a parsed [text/template] whose actions are map lookups of
    keys that are all present, into a [bytes.Buffer], cannot fail; the
    text is the template with the values in place of the actions. *)

Definition setter_tpl (Receiver Struct MethodName Fld Type_ : string) : string :=
  nl +:+ "func (" +:+ Receiver +:+ " *" +:+ Struct +:+ ") " +:+ MethodName
     +:+ "(val " +:+ Type_ +:+ ") {" +:+ nl
     +:+ tab +:+ Receiver +:+ "." +:+ Fld +:+ " = val" +:+ nl +:+ "}".

Definition getter_tpl (Receiver Struct MethodName Fld Type_ : string) : string :=
  nl +:+ "func (" +:+ Receiver +:+ " *" +:+ Struct +:+ ") " +:+ MethodName
     +:+ "() " +:+ Type_ +:+ " {" +:+ nl
     +:+ tab +:+ "return " +:+ Receiver +:+ "." +:+ Fld +:+ nl +:+ "}".

(** [setterGenerator(receiverName)] returns a closure; the model takes the
    closure's arguments after the generator's.  [*field.Tag.Setter]
    dereferences two pointers. *)
Definition setterGenerator (receiver : string) (structName : string)
    (field : Field) : result string :=
  match fld_Tag field with
  | None => Panic nil_dereference
  | Some tag =>
      match tag_Setter tag with
      | None => Panic nil_dereference
      | Some m =>
          let methodName :=
            if String.eqb m "" then "Set" +:+ Title (fld_Name field) else m in
          r <- receiverName receiver structName ;;
          Ok (setter_tpl r structName methodName (fld_Name field)
                (fld_DataType field))
      end
  end.

Definition getterGenerator (receiver : string) (structName : string)
    (field : Field) : result string :=
  match fld_Tag field with
  | None => Panic nil_dereference
  | Some tag =>
      match tag_Getter tag with
      | None => Panic nil_dereference
      | Some m =>
          let methodName :=
            if String.eqb m "" then Title (fld_Name field) else m in
          r <- receiverName receiver structName ;;
          Ok (getter_tpl r structName methodName (fld_Name field)
                (fld_DataType field))
      end
  end.

(** ** The generator *)

(** [type generator struct { buf *bytes.Buffer }]. *)
Record generator := { buf : string }.

(** [g.printf]: the argument is the text [fmt.Fprintf] produces; [%s] with
    a string argument is the string itself. *)
Definition printf (g : generator) (text : string) : generator :=
  {| buf := buf g +:+ text |}.

(** [sort.Strings]: the ascending rearrangement by byte-wise comparison.
    The order is total, so the result does not depend on the algorithm. *)
Definition sort_Strings (l : list string) : list string :=
  merge_sort String.le l.

(** A [for ... range] over a map visits the keys in an order Go leaves
    open: any function listing each key of the map once can play it. *)
Definition range_order (range_keys : gmap string string -> list string) : Prop :=
  forall m, range_keys m ≡ₚ (map_to_list m).*1.

(** [afero.Fs] is an interface; only [afero.WriteFile] is used. *)
Class Fs (F : Type) := WriteFile : F -> string -> string -> N -> F * option error.

(** The loop over [file.Imports] with its [break]. *)
Fixpoint findImport (imps : list Import) (typePkg : string)
    (imports : gmap string string) : gmap string string :=
  match imps with
  | [] => imports
  | imp :: imps' =>
      if String.eqb (imp_Name imp) typePkg
      then <[imp_Name imp := imp_PkgPath imp]> imports
      else findImport imps' typePkg imports
  end.

(** A [for] loop whose body may return from the function. *)
Fixpoint forEach {S A} (body : S -> A -> result S) (s : S) (l : list A)
    : result S :=
  match l with
  | [] => Ok s
  | a :: l' => s' <- body s a ;; forEach body s' l'
  end.

Definition typePkgOf (field : Field) : string :=
  match Split_dot (TrimPrefix_star (fld_DataType field)) with
  | piece :: _ => piece
  | [] => ""
  end.

Section Generate.
Context {F : Type} `{Fs F}.
(** [format.Source], from the Go distribution. *)
Variable format_Source : string -> string + error.
Variable range_keys : gmap string string -> list string.

Definition importLine (importMap : gmap string string) (name : string) : string :=
  let path := default "" (importMap !! name) in
  if String.eqb name (Base path)
  then tab +:+ dq +:+ path +:+ dq +:+ nl
  else tab +:+ name +:+ " " +:+ dq +:+ path +:+ dq +:+ nl.

Definition write (g : generator) (pkgName : string)
    (importMap : gmap string string) (accessors : list string) : generator :=
  let g := printf g ("// Code generated by accessory; DO NOT EDIT." +:+ nl) in
  let g := printf g nl in
  let g := printf g ("package " +:+ pkgName +:+ nl) in
  let g := printf g nl in
  let g :=
    if bool_decide (0 < size importMap) then
      let importNames := sort_Strings (range_keys importMap) in
      let g := printf g ("import (" +:+ nl) in
      let g := foldl (fun g name => printf g (importLine importMap name))
                 g importNames in
      printf g (")" +:+ nl)
    else g in
  foldl (fun g accessor => printf g (accessor +:+ nl)) g accessors.

Definition format (g : generator) : string * option error :=
  match format_Source (buf g) with
  | inr err => (buf g, Some err)
  | inl src => (src, None)
  end.

(** The body of the loop over [st.Fields]; the state is the pair of
    [imports] and [accessors]. *)
Definition fieldStep (receiver : string) (file : File) (st : Struct)
    (acc : gmap string string * list string) (field : Field)
    : result (gmap string string * list string) :=
  let '(imports, accessors) := acc in
  match fld_Tag field with
  | None => Ok acc
  | Some tag =>
      let typePkg := typePkgOf field in
      let imports :=
        match imports !! typePkg with
        | Some _ => imports
        | None => findImport (file_Imports file) typePkg imports
        end in
      accessors <-
        match tag_Getter tag with
        | Some _ =>
            getter <- getterGenerator receiver (st_Name st) field ;;
            Ok (accessors ++ [getter])%list
        | None => Ok accessors
        end ;;
      accessors <-
        match tag_Setter tag with
        | Some _ =>
            setter <- setterGenerator receiver (st_Name st) field ;;
            Ok (accessors ++ [setter])%list
        | None => Ok accessors
        end ;;
      Ok (imports, accessors)
  end.

Definition structStep (receiver typeName : string) (file : File)
    (acc : gmap string string * list string) (st : Struct)
    : result (gmap string string * list string) :=
  if negb (String.eqb (st_Name st) typeName) then Ok acc
  else forEach (fieldStep receiver file st) acc (st_Fields st).

Definition fileStep (receiver typeName : string)
    (acc : gmap string string * list string) (file : File)
    : result (gmap string string * list string) :=
  forEach (structStep receiver typeName file) acc (file_Structs file).

(** The three nested loops of [Generate]. *)
Definition walk (pkg : Package) (typeName receiver : string)
    : result (gmap string string * list string) :=
  forEach (fileStep receiver typeName) (∅, []) (pkg_Files pkg).

Definition Generate (fs : F) (pkg : Package)
    (typeName output receiver : string) : F * result unit :=
  let g := {| buf := "" |} in
  match walk pkg typeName receiver with
  | Err e => (fs, Err e)
  | Panic m => (fs, Panic m)
  | Ok (imports, accessors) =>
      let g := write g (pkg_Name pkg) imports accessors in
      match format g with
      | (_, Some err) => (fs, Err err)
      | (content, None) =>
          let path := outputFile output typeName (pkg_Dir pkg) in
          match WriteFile fs path content 420%N with
          | (fs', Some err) => (fs', Err err)
          | (fs', None) => (fs', Ok tt)
          end
      end
  end.
End Generate.

(** ** Instances used in the examples *)

(** A file system in memory on which every write succeeds. *)
#[export] Instance MapFs : Fs (gmap string string) :=
  fun fs name data _ => (<[name := data]> fs, None).

(** A formatter that accepts everything and one that rejects everything. *)
Definition fmt_accept : string -> string + error := inl.
Definition fmt_reject : string -> string + error :=
  fun _ => inr "1:1: expected 'package', found 'EOF'".

(** Two visiting orders. *)
Definition range_canonical (m : gmap string string) : list string :=
  (map_to_list m).*1.
Definition range_reverse (m : gmap string string) : list string :=
  reverse (map_to_list m).*1.

Definition User : Struct :=
  {| st_Name := "User";
     st_Fields :=
       [ {| fld_Name := "name"; fld_DataType := "string";
            fld_Tag := Some {| tag_Setter := None; tag_Getter := Some "" |} |};
         {| fld_Name := "age"; fld_DataType := "int";
            fld_Tag := Some {| tag_Setter := Some ""; tag_Getter := Some "" |} |};
         {| fld_Name := "born"; fld_DataType := "*time.Time";
            fld_Tag := Some {| tag_Setter := Some "Birth"; tag_Getter := None |} |};
         {| fld_Name := "note"; fld_DataType := "string"; fld_Tag := None |} ] |}.

Definition userPkg : Package :=
  {| pkg_Name := "model"; pkg_Dir := "model";
     pkg_Files :=
       [ {| file_Imports := [ {| imp_Name := "time"; imp_PkgPath := "time" |} ];
            file_Structs := [ User ] |} ] |}.

(** ** Notions used in the statements *)

Definition isIdentByte (c : ascii) : bool :=
  isDigit c || isLower c || isUpper c || Ascii.eqb c "_".

(** Names made of ASCII letters, digits and underscores. *)
Fixpoint isIdent (s : string) : bool :=
  match s with
  | "" => true
  | String c rest => isIdentByte c && isIdent rest
  end.

(** The name with its first character in upper case and the rest as it
    is. *)
Definition capitalize (s : string) : string :=
  match s with
  | "" => ""
  | String c rest => String (upperByte c) rest
  end.


(** The texts of a list one after the other. *)
Definition concatAll (l : list string) : string := foldr String.append "" l.

(** The first four lines [write] prints. *)
Definition scaffold (pkgName : string) : string :=
  "// Code generated by accessory; DO NOT EDIT." +:+ nl +:+ nl
  +:+ "package " +:+ pkgName +:+ nl +:+ nl.

(** The import block for the names in the order [names]. *)
Definition importBlock (importMap : gmap string string) (names : list string)
    : string :=
  "import (" +:+ nl +:+ concatAll (importLine importMap <$> names) +:+ ")" +:+ nl.

(** No struct with the requested name has a tagged field. *)
Definition noTaggedField (pkg : Package) (typeName : string) : Prop :=
  forall file st field,
    file ∈ pkg_Files pkg -> st ∈ file_Structs file -> st_Name st = typeName ->
    field ∈ st_Fields st -> fld_Tag field = None.

(** What [Generate] returns after [afero.WriteFile]. *)
Definition written {F} (w : F * option error) : F * result unit :=
  match w with
  | (fs', Some err) => (fs', Err err)
  | (fs', None) => (fs', Ok tt)
  end.

(** A package whose struct [Event] uses two imported packages. *)
Definition eventPkg : Package :=
  {| pkg_Name := "model"; pkg_Dir := "model";
     pkg_Files :=
       [ {| file_Imports :=
              [ {| imp_Name := "time"; imp_PkgPath := "time" |};
                {| imp_Name := "fs"; imp_PkgPath := "github.com/spf13/afero" |} ];
            file_Structs :=
              [ {| st_Name := "Event";
                   st_Fields :=
                     [ {| fld_Name := "at"; fld_DataType := "time.Time";
                          fld_Tag := Some {| tag_Setter := None;
                                             tag_Getter := Some "" |} |};
                       {| fld_Name := "disk"; fld_DataType := "*fs.Fs";
                          fld_Tag := Some {| tag_Setter := Some "";
                                             tag_Getter := None |} |} ] |} ] |} ] |}.

(** C1 as the specification states it: whenever formatting fails, the
    caller of [Generate] can get the raw buffer back from what [Generate]
    hands over, that is the file system and the returned error. *)
Definition rawBufferReachesCaller : Prop :=
  forall (format_Source : string -> string + error),
  exists recover : gmap string string * result unit -> string,
  forall fs pkg typeName output receiver imports accessors err,
    walk pkg typeName receiver = Ok (imports, accessors) ->
    format_Source
      (buf (write range_canonical {| buf := "" |} (pkg_Name pkg) imports accessors))
    = inr err ->
    recover (Generate format_Source range_canonical fs pkg typeName output receiver)
    = buf (write range_canonical {| buf := "" |} (pkg_Name pkg) imports accessors).

(** The two passes of the file name in the specification's words.  Pass
    one puts an underscore between any character and a capital letter that
    follows it and is itself followed by a lower-case letter; pass two puts
    one between a lower-case letter or digit and a capital letter that
    follows it. *)
Fixpoint spec_pass1 (s : string) : string :=
  match s with
  | "" => ""
  | String c rest =>
      match rest with
      | String u (String l _) =>
          if isUpper u && isLower l
          then String c (String "_" (spec_pass1 rest))
          else String c (spec_pass1 rest)
      | _ => String c (spec_pass1 rest)
      end
  end.

Fixpoint spec_pass2 (s : string) : string :=
  match s with
  | "" => ""
  | String c rest =>
      match rest with
      | String u _ =>
          if (isLower c || isDigit c) && isUpper u
          then String c (String "_" (spec_pass2 rest))
          else String c (spec_pass2 rest)
      | "" => String c ""
      end
  end.

(** The file name in the specification's words. *)
Definition spec_fileName (typeName : string) : string :=
  ToLower (spec_pass2 (spec_pass1 typeName)) +:+ "_accessor" +:+ ".go".

(** Type names do not hold a line feed. *)
Fixpoint noLineFeed (s : string) : bool :=
  match s with
  | "" => true
  | String c rest => negb (Ascii.eqb c (ascii_of_N 10)) && noLineFeed rest
  end.

Definition headUpper (s : string) : bool :=
  match s with
  | String u _ => isUpper u
  | "" => false
  end.

(** ** Notions for the import set *)

(** The path of the first entry of an import list with alias [a]. *)
Fixpoint aliasPath (imps : list Import) (a : string) : option string :=
  match imps with
  | [] => None
  | imp :: imps' =>
      if String.eqb (imp_Name imp) a then Some (imp_PkgPath imp)
      else aliasPath imps' a
  end.

(** The qualifiers [Generate] looks up, each with the file that owns the
    field, in the order of the walk: one for every tagged field of a struct
    with the requested name. *)
Definition fieldCands (file : File) (field : Field) : list (string * File) :=
  match fld_Tag field with
  | Some _ => [(typePkgOf field, file)]
  | None => []
  end.

Definition structCands (typeName : string) (file : File) (st : Struct)
    : list (string * File) :=
  if String.eqb (st_Name st) typeName then st_Fields st ≫= fieldCands file else [].

Definition fileCands (typeName : string) (file : File) : list (string * File) :=
  file_Structs file ≫= structCands typeName file.

Definition candidates (pkg : Package) (typeName : string) : list (string * File) :=
  pkg_Files pkg ≫= fileCands typeName.

(** What one lookup does to the import map. *)
Definition record (imports : gmap string string) (cand : string * File)
    : gmap string string :=
  match imports !! cand.1 with
  | Some _ => imports
  | None =>
      match aliasPath (file_Imports cand.2) cand.1 with
      | Some p => <[cand.1 := p]> imports
      | None => imports
      end
  end.

(** [a] resolves to [p] at the first lookup of [a] whose file has an entry
    for it. *)
Definition firstResolved (cands : list (string * File)) (a p : string) : Prop :=
  exists l1 file l2,
    cands = (l1 ++ (a, file) :: l2)%list
    /\ aliasPath (file_Imports file) a = Some p
    /\ forall file', (a, file') ∈ l1 -> aliasPath (file_Imports file') a = None.

Definition hasDot (s : string) : bool :=
  existsb (Ascii.eqb ".") (String.list_ascii_of_string s).

(** The field gets a getter or a setter. *)
Definition emits (field : Field) : bool :=
  match fld_Tag field with
  | Some tag => bool_decide (tag_Getter tag <> None) || bool_decide (tag_Setter tag <> None)
  | None => false
  end.


(** A struct with a field whose tag asks for no accessor. *)
Definition stampPkg : Package :=
  {| pkg_Name := "model"; pkg_Dir := "model";
     pkg_Files :=
       [ {| file_Imports := [ {| imp_Name := "time"; imp_PkgPath := "time" |} ];
            file_Structs :=
              [ {| st_Name := "Stamp";
                   st_Fields :=
                     [ {| fld_Name := "at"; fld_DataType := "time.Time";
                          fld_Tag := Some {| tag_Setter := None;
                                             tag_Getter := None |} |} ] |} ] |} ] |}.

(** ** Notions for the accessors of a package *)

(** The functions one field asks for, with the receiver [r]. *)
Definition fieldAccessors (r structName : string) (field : Field) : list string :=
  match fld_Tag field with
  | None => []
  | Some tag =>
      (match tag_Getter tag with
       | Some m =>
           [ getter_tpl r structName
               (if String.eqb m "" then Title (fld_Name field) else m)
               (fld_Name field) (fld_DataType field) ]
       | None => []
       end
       ++
       match tag_Setter tag with
       | Some m =>
           [ setter_tpl r structName
               (if String.eqb m "" then "Set" +:+ Title (fld_Name field) else m)
               (fld_Name field) (fld_DataType field) ]
       | None => []
       end)%list
  end.

Definition structAccessors (r typeName : string) (st : Struct) : list string :=
  if String.eqb (st_Name st) typeName
  then st_Fields st ≫= fieldAccessors r typeName else [].

Definition accessorsOf (r : string) (pkg : Package) (typeName : string)
    : list string :=
  pkg_Files pkg ≫= (fun file => file_Structs file ≫= structAccessors r typeName).

(** The fields of the structs with the requested name, in the order of the
    walk. *)
Definition selectedFields (pkg : Package) (typeName : string) : list Field :=
  pkg_Files pkg ≫= (fun file =>
    file_Structs file ≫= (fun st =>
      if String.eqb (st_Name st) typeName then st_Fields st else [])).

(** The number of accessors the tag of a field asks for. *)
Definition requested (field : Field) : nat :=
  match fld_Tag field with
  | None => 0
  | Some tag =>
      (if tag_Getter tag is Some _ then 1 else 0)
      + (if tag_Setter tag is Some _ then 1 else 0)
  end.

(** A struct with the empty name that has a field asking for an accessor,
    and a file with such a struct. *)
Definition namelessEmits (st : Struct) : bool :=
  String.eqb (st_Name st) "" && existsb emits (st_Fields st).

Definition fileNamelessEmits (file : File) : bool :=
  existsb namelessEmits (file_Structs file).

(** ** Notions for the rewriting of the type name *)

(** The text without its underscores. *)
Fixpoint dropUnderscores (s : string) : string :=
  match s with
  | "" => ""
  | String c rest =>
      if Ascii.eqb c "_" then dropUnderscores rest
      else String c (dropUnderscores rest)
  end.

(** A lower-case letter or digit is directly followed by a capital. *)
Fixpoint camelBoundary (s : string) : bool :=
  match s with
  | "" => false
  | String c rest => ((isLower c || isDigit c) && headUpper rest) || camelBoundary rest
  end.

(** No ASCII capital letter occurs. *)
Fixpoint noUpper (s : string) : bool :=
  match s with
  | "" => true
  | String c rest => negb (isUpper c) && noUpper rest
  end.

(** ** The command ([cmd.Execute]) *)

(** The values of the four flags and the remaining arguments after
    [flags.Parse]. *)
Record Flags := {
  flag_version : bool;
  flag_type : string;
  flag_receiver : string;
  flag_output : string;
  flag_Args : list string
}.

(** How [Execute] ends: it returns, the process exits with a status
    ([os.Exit], [log.Fatal]), or it panics.  What is printed on the
    standard streams is left out. *)
Inductive ending : Type :=
  | Returned
  | Exited (status : N)
  | Panicked (msg : string).

Section Execute.
Context {F : Type} `{Fs F}.
Variable format_Source : string -> string + error.
Variable range_keys : gmap string string -> list string.
(** [flags.Parse(args[1:])] of the flag set with the flags [version],
    [type], [receiver] and [output] (package [flag]). *)
Variable flags_Parse : list string -> Flags + error.
(** [os.Stat(name)] followed by [info.IsDir()]. *)
Variable os_Stat : string -> bool + error.
(** Modelled from the spec: [parser.ParsePackage], which is not among the
    sources: given a directory it produces a [Package] or fails. *)
Variable ParsePackage : string -> Package + error.

(** [isDir]: [None] stands for the exit of [log.Fatal]. *)
Definition isDir (name : string) : option bool :=
  match os_Stat name with
  | inr _ => None
  | inl info_IsDir => Some info_IsDir
  end.

Definition Execute (fs : F) (args : list string) : F * ending :=
  match args with
  | [] => (fs, Panicked index_out_of_range)
  | _ :: rest =>
      match flags_Parse rest with
      | inr _ => (fs, Exited 1)
      | inl flags =>
          if flag_version flags then (fs, Exited 0)
          else if Nat.eqb (String.length (flag_type flags)) 0 then (fs, Exited 1)
          else
            let dir :=
              match flag_Args flags with
              | cliArg :: _ => cliArg
              | [] => "."
              end in
            match isDir dir with
            | None => (fs, Exited 1)
            | Some false => (fs, Exited 1)
            | Some true =>
                match ParsePackage dir with
                | inr _ => (fs, Exited 1)
                | inl pkg =>
                    match Generate format_Source range_keys fs pkg
                            (flag_type flags) (flag_output flags)
                            (flag_receiver flags) with
                    | (fs', Ok _) => (fs', Returned)
                    | (fs', Err _) => (fs', Exited 1)
                    | (fs', Panic msg) => (fs', Panicked msg)
                    end
                end
            end
      end
  end.
End Execute.

(** Oracles for the examples: the flags are read from the arguments in the
    order type, receiver, output, directory; every name is a directory; the
    scanner finds the package [userPkg]. *)
Definition parse_positional (rest : list string) : Flags + error :=
  match rest with
  | [type; receiver; output; dir] =>
      inl {| flag_version := false; flag_type := type; flag_receiver := receiver;
             flag_output := output; flag_Args := [dir] |}
  | _ => inr "flag provided but not defined"
  end.
Definition stat_dir : string -> bool + error := fun _ => inl true.
Definition scan_user : string -> Package + error := fun _ => inl userPkg.

(** ** Notions for the import lines *)

Definition hasSlash (s : string) : bool :=
  existsb (Ascii.eqb "/") (String.list_ascii_of_string s).

(** ** Notions for the import set of the emitted accessors *)


(** * Properties *)

(** ** The library models on examples *)

Example Base_pkg : Base "github.com/spf13/afero" = "afero".
Proof. reflexivity. Qed.
Example Base_slashes : Base "a/b//" = "b" /\ Base "///" = "/" /\ Base "" = ".".
Proof. repeat split; reflexivity. Qed.
Example Join_dot : Join "." "a.go" = "a.go" /\ Join "x/y/" "a.go" = "x/y/a.go".
Proof. split; reflexivity. Qed.
Example Join_up : Join "/x/../.." "a.go" = "/a.go" /\ Join "x/../.." "a.go" = "../a.go".
Proof. split; reflexivity. Qed.
Example Title_words : Title "user_name" = "User_name" /\ Title "a b" = "A B".
Proof. split; reflexivity. Qed.
Example firstCap_http : firstCapMatcher_replace "HTTPServer" = "HTTP_Server".
Proof. reflexivity. Qed.
Example firstCap_consumed : firstCapMatcher_replace "XAbCd" = "X_AbCd".
Proof. reflexivity. Qed.
Example articleCap_user : articleCapMatcher_replace "UserProfile" = "User_Profile".
Proof. reflexivity. Qed.
Example outputFile_UserProfile :
  outputFile "" "UserProfile" "." = "user_profile_accessor.go".
Proof. reflexivity. Qed.
Example receiverName_Widget : receiverName "" "Widget" = Ok "w".
Proof. reflexivity. Qed.

(** ** Loops and results *)

Lemma forEach_app {S A} (body : S -> A -> result S) s l1 l2 :
  forEach body s (l1 ++ l2)%list = (s' <- forEach body s l1 ;; forEach body s' l2).
Proof.
  revert s. induction l1 as [|a l1 IH]; intros s; simpl; [reflexivity|].
  destruct (body s a); simpl; auto.
Qed.

Lemma forEach_skip {S A} (body : S -> A -> result S) (keep : A -> bool) s l :
  (forall s a, keep a = false -> body s a = Ok s) ->
  forEach body s (List.filter keep l) = forEach body s l.
Proof.
  intros Hskip. revert s. induction l as [|a l IH]; intros s; simpl; [reflexivity|].
  destruct (keep a) eqn:Hk; simpl.
  - destruct (body s a); simpl; auto.
  - rewrite (Hskip s a Hk). simpl. apply IH.
Qed.

(** ** Receiver names *)

Lemma receiverName_override userInput structName :
  userInput <> "" -> receiverName userInput structName = Ok userInput.
Proof.
  intros Hne. unfold receiverName.
  destruct (String.eqb_spec userInput ""); [contradiction|reflexivity].
Qed.

Lemma receiverName_ascii b rest :
  isASCII b = true -> receiverName "" (String b rest) = Ok (String (lowerByte b) "").
Proof.
  intros Hb. unfold receiverName, string_of_byte. simpl. rewrite Hb. simpl.
  rewrite Hb. reflexivity.
Qed.

Example receiverName_self : receiverName "self" "Widget" = Ok "self".
Proof. reflexivity. Qed.

(** C10: with no override the receiver is derived from the first byte of
    the struct name; on the empty name the index is out of range and the
    call panics, on every other name it returns, and the panic reaches the
    caller of [Generate] when a struct with the empty name is selected. *)
Theorem C10_receiverName_needs_nonempty_struct_name :
  receiverName "" "" = Panic index_out_of_range
  /\ (forall b rest,
        receiverName "" (String b rest) = Ok (ToLower (string_of_byte b)))
  /\ (forall structName,
        (exists r, receiverName "" structName = Ok r) <-> structName <> "")
  /\ Generate fmt_accept range_canonical (∅ : gmap string string)
       {| pkg_Name := "p"; pkg_Dir := ".";
          pkg_Files :=
            [ {| file_Imports := [];
                 file_Structs :=
                   [ {| st_Name := "";
                        st_Fields :=
                          [ {| fld_Name := "x"; fld_DataType := "int";
                               fld_Tag := Some {| tag_Setter := None;
                                                  tag_Getter := Some "" |} |} ]
                     |} ] |} ] |} "" "" ""
     = (∅, Panic index_out_of_range).
Proof.
  split; [reflexivity|]. split; [reflexivity|]. split.
  - intros structName. destruct structName as [|b rest]; simpl.
    + split; [intros [r Hr]; discriminate|congruence].
    + split; [congruence|]. intros _. eexists. reflexivity.
  - reflexivity.
Qed.

(** C9 (the code departs from its comment): with no override the code
    lowers the first byte of the struct name, not its first letter.  For
    the type [État] the first letter is [É] (bytes 0xC3 0x89) and its
    lower case is [é]; the code returns [ã], the lower case of the letter
    numbered 0xC3. *)
Theorem C9_receiverName_takes_first_byte :
  receiverName "" "État" = Ok "ã" /\ "ã" <> "é"
  /\ receiverName "" "Widget" = Ok "w"
  /\ receiverName "self" "Widget" = Ok "self".
Proof. repeat split; try reflexivity. discriminate. Qed.

(** ** Method names *)

Lemma isIdentByte_not_separator c : isIdentByte c = true -> isSeparator c = false.
Proof.
  unfold isSeparator, isIdentByte. intros ->. destruct (isASCII c); reflexivity.
Qed.

Lemma Title_from_ident prev s :
  isSeparator prev = false -> isIdent s = true -> Title_from prev s = s.
Proof.
  revert prev. induction s as [|c rest IH]; intros prev Hp Hs; simpl; [reflexivity|].
  simpl in Hs. apply andb_prop in Hs as [Hc Hrest].
  rewrite Hp. f_equal. apply IH; [apply isIdentByte_not_separator|]; assumption.
Qed.

Lemma Title_ident s : isIdent s = true -> Title s = capitalize s.
Proof.
  destruct s as [|c rest]; [reflexivity|]. simpl. intros Hs.
  apply andb_prop in Hs as [Hc Hrest]. unfold Title. simpl. f_equal.
  apply Title_from_ident; [apply isIdentByte_not_separator|]; assumption.
Qed.

(** C3: for a field whose tag asks for the default names, the generated
    getter is the function whose name is the field name with its first
    letter in upper case and nothing else changed, and the generated setter
    is the function whose name is [Set] followed by that name; the texts of
    both functions are given in full.  A first character that is no letter
    (an underscore, a digit) stays as it is.  Field names are identifiers;
    the statement covers those written in ASCII. *)
Theorem C3_default_method_names receiver structName field tag r :
  fld_Tag field = Some tag ->
  isIdent (fld_Name field) = true ->
  receiverName receiver structName = Ok r ->
  (tag_Getter tag = Some "" ->
   getterGenerator receiver structName field
   = Ok (nl +:+ "func (" +:+ r +:+ " *" +:+ structName +:+ ") "
         +:+ capitalize (fld_Name field)
         +:+ "() " +:+ fld_DataType field +:+ " {" +:+ nl
         +:+ tab +:+ "return " +:+ r +:+ "." +:+ fld_Name field +:+ nl +:+ "}"))
  /\ (tag_Setter tag = Some "" ->
      setterGenerator receiver structName field
      = Ok (nl +:+ "func (" +:+ r +:+ " *" +:+ structName +:+ ") "
            +:+ "Set" +:+ capitalize (fld_Name field)
            +:+ "(val " +:+ fld_DataType field +:+ ") {" +:+ nl
            +:+ tab +:+ r +:+ "." +:+ fld_Name field +:+ " = val" +:+ nl +:+ "}")).
Proof.
  intros Htag Hid Hr. split; intros Hm.
  - unfold getterGenerator. rewrite Htag, Hm, Hr. simpl.
    rewrite (Title_ident _ Hid). reflexivity.
  - unfold setterGenerator. rewrite Htag, Hm, Hr. simpl.
    rewrite (Title_ident _ Hid). reflexivity.
Qed.

Lemma C3_default_method_names_witness :
  getterGenerator "" "User"
    {| fld_Name := "age"; fld_DataType := "int";
       fld_Tag := Some {| tag_Setter := Some ""; tag_Getter := Some "" |} |}
  = Ok (nl +:+ "func (u *User) Age() int {" +:+ nl
        +:+ tab +:+ "return u.age" +:+ nl +:+ "}")
  /\ setterGenerator "" "User"
       {| fld_Name := "age"; fld_DataType := "int";
          fld_Tag := Some {| tag_Setter := Some ""; tag_Getter := Some "" |} |}
     = Ok (nl +:+ "func (u *User) SetAge(val int) {" +:+ nl
           +:+ tab +:+ "u.age = val" +:+ nl +:+ "}").
Proof.
  pose proof (C3_default_method_names "" "User"
    {| fld_Name := "age"; fld_DataType := "int";
       fld_Tag := Some {| tag_Setter := Some ""; tag_Getter := Some "" |} |}
    {| tag_Setter := Some ""; tag_Getter := Some "" |} "u"
    eq_refl eq_refl eq_refl) as [Hg Hs].
  split; [exact (Hg eq_refl)|exact (Hs eq_refl)].
Defined.

(** ** Accessors of one field *)

(** C7: a field without a tag leaves the accessors (and the imports) as
    they are, and a struct's fields yield what its tagged fields alone
    yield. *)
Theorem C7_untagged_field_generates_nothing :
  (forall receiver file st imports accessors name type,
      fieldStep receiver file st (imports, accessors)
        {| fld_Name := name; fld_DataType := type; fld_Tag := None |}
      = Ok (imports, accessors))
  /\ (forall receiver file st acc fields,
        forEach (fieldStep receiver file st) acc
          (List.filter (fun field => bool_decide (fld_Tag field <> None)) fields)
        = forEach (fieldStep receiver file st) acc fields).
Proof.
  split; [reflexivity|]. intros receiver file st acc fields.
  apply forEach_skip. intros [imports accessors] field Hf.
  apply bool_decide_eq_false in Hf. unfold fieldStep.
  destruct (fld_Tag field); [exfalso; apply Hf; discriminate|reflexivity].
Qed.

(** C6: a field whose tag names both accessors adds exactly two functions
    to the accessors, first the getter, a function named [X], and then the
    setter, a function named [Y]; the names are put into the texts as they
    are, and the texts of both functions are given in full.  In the tag the
    empty name stands for the default, so a given name is a non-empty
    one. *)
Theorem C6_named_accessors receiver file st imports accessors name type X Y r :
  X <> "" -> Y <> "" ->
  receiverName receiver (st_Name st) = Ok r ->
  exists imports',
    fieldStep receiver file st (imports, accessors)
      {| fld_Name := name; fld_DataType := type;
         fld_Tag := Some {| tag_Setter := Some Y; tag_Getter := Some X |} |}
    = Ok (imports',
          (accessors
           ++ [ nl +:+ "func (" +:+ r +:+ " *" +:+ st_Name st +:+ ") " +:+ X
                +:+ "() " +:+ type +:+ " {" +:+ nl
                +:+ tab +:+ "return " +:+ r +:+ "." +:+ name +:+ nl +:+ "}";
                nl +:+ "func (" +:+ r +:+ " *" +:+ st_Name st +:+ ") " +:+ Y
                +:+ "(val " +:+ type +:+ ") {" +:+ nl
                +:+ tab +:+ r +:+ "." +:+ name +:+ " = val" +:+ nl +:+ "}" ])%list).
Proof.
  intros HX HY Hr. eexists. unfold fieldStep, getterGenerator, setterGenerator.
  simpl. rewrite Hr. simpl.
  destruct (String.eqb_spec X ""); [contradiction|].
  destruct (String.eqb_spec Y ""); [contradiction|].
  rewrite <- app_assoc. reflexivity.
Qed.

Lemma C6_named_accessors_witness :
  exists imports',
    fieldStep "" {| file_Imports := []; file_Structs := [] |}
      {| st_Name := "Widget"; st_Fields := [] |} (∅, [])
      {| fld_Name := "size"; fld_DataType := "int";
         fld_Tag := Some {| tag_Setter := Some "Resize"; tag_Getter := Some "Len" |} |}
    = Ok (imports',
          [ nl +:+ "func (w *Widget) Len() int {" +:+ nl
            +:+ tab +:+ "return w.size" +:+ nl +:+ "}";
            nl +:+ "func (w *Widget) Resize(val int) {" +:+ nl
            +:+ tab +:+ "w.size = val" +:+ nl +:+ "}" ]).
Proof.
  apply (C6_named_accessors "" {| file_Imports := []; file_Structs := [] |}
           {| st_Name := "Widget"; st_Fields := [] |} ∅ [] "size" "int"
           "Len" "Resize" "w").
  - discriminate.
  - discriminate.
  - reflexivity.
Defined.

(** ** The output buffer *)

Lemma append_assoc s t u : (s +:+ t) +:+ u = s +:+ t +:+ u.
Proof.
  induction s as [|c s IH]; [reflexivity|].
  change ((String c s +:+ t) +:+ u) with (String c ((s +:+ t) +:+ u)).
  rewrite IH. reflexivity.
Qed.

Lemma append_nil_r s : s +:+ "" = s.
Proof.
  induction s as [|c s IH]; [reflexivity|].
  change (String c s +:+ "") with (String c (s +:+ "")). rewrite IH. reflexivity.
Qed.

Lemma buf_foldl_printf {A} (text : A -> string) g l :
  buf (foldl (fun g a => printf g (text a)) g l)
  = buf g +:+ concatAll (text <$> l).
Proof.
  revert g. induction l as [|a l IH]; intros g; simpl.
  - symmetry. apply append_nil_r.
  - rewrite IH. simpl. apply append_assoc.
Qed.

Lemma buf_write range_keys g pkgName importMap accessors :
  buf (write range_keys g pkgName importMap accessors)
  = buf g +:+ scaffold pkgName
    +:+ (if bool_decide (0 < size importMap)
         then importBlock importMap (sort_Strings (range_keys importMap))
         else "")
    +:+ concatAll ((fun accessor => accessor +:+ nl) <$> accessors).
Proof.
  unfold write. rewrite buf_foldl_printf. unfold scaffold, importBlock.
  destruct (bool_decide (0 < size importMap)); simpl.
  - rewrite buf_foldl_printf. simpl. rewrite !append_assoc. reflexivity.
  - rewrite !append_assoc. reflexivity.
Qed.

Lemma sort_Strings_range range_keys1 range_keys2 (m : gmap string string) :
  range_order range_keys1 -> range_order range_keys2 ->
  sort_Strings (range_keys1 m) = sort_Strings (range_keys2 m).
Proof.
  intros H1 H2. unfold sort_Strings.
  apply (Sorted_unique String.le).
  - apply Sorted_merge_sort; apply _.
  - apply Sorted_merge_sort; apply _.
  - rewrite !merge_sort_Permutation, (H1 m), (H2 m). reflexivity.
Qed.

Lemma write_range range_keys1 range_keys2 g pkgName importMap accessors :
  range_order range_keys1 -> range_order range_keys2 ->
  write range_keys1 g pkgName importMap accessors
  = write range_keys2 g pkgName importMap accessors.
Proof.
  intros H1 H2. unfold write.
  rewrite (sort_Strings_range range_keys1 range_keys2 importMap H1 H2).
  reflexivity.
Qed.

Lemma range_canonical_order : range_order range_canonical.
Proof. intros m. reflexivity. Qed.

Lemma range_reverse_order : range_order range_reverse.
Proof. intros m. unfold range_reverse. apply reverse_Permutation. Qed.

(** C4: the only step of [Generate] whose course Go leaves open is the
    visit of the import map; whatever order the visit takes, [Generate]
    writes the same bytes to the same file and returns the same result.
    Two runs on the same input therefore agree. *)
Theorem C4_Generate_deterministic {F} `{Fs F} format_Source
    range_keys1 range_keys2 (fs : F) pkg typeName output receiver :
  range_order range_keys1 -> range_order range_keys2 ->
  (forall imports accessors,
      buf (write range_keys1 {| buf := "" |} (pkg_Name pkg) imports accessors)
      = buf (write range_keys2 {| buf := "" |} (pkg_Name pkg) imports accessors))
  /\ Generate format_Source range_keys1 fs pkg typeName output receiver
     = Generate format_Source range_keys2 fs pkg typeName output receiver.
Proof.
  intros H1 H2. split.
  - intros imports accessors.
    rewrite (write_range range_keys1 range_keys2 _ _ _ _ H1 H2). reflexivity.
  - unfold Generate.
    destruct (walk pkg typeName receiver) as [[imports accessors]|e|m]; try reflexivity.
    rewrite (write_range range_keys1 range_keys2 _ _ _ _ H1 H2). reflexivity.
Qed.

Lemma C4_Generate_deterministic_witness :
  Generate fmt_accept range_canonical (∅ : gmap string string) eventPkg "Event" "" ""
  = Generate fmt_accept range_reverse (∅ : gmap string string) eventPkg "Event" "" "".
Proof.
  refine (proj2 (C4_Generate_deterministic fmt_accept range_canonical range_reverse
           (∅ : gmap string string) eventPkg "Event" "" "" _ _)).
  - exact range_canonical_order.
  - exact range_reverse_order.
Defined.

Example range_orders_differ :
  (exists imports accessors,
      walk eventPkg "Event" "" = Ok (imports, accessors)
      /\ range_canonical imports <> range_reverse imports)
  /\ buf (write range_reverse {| buf := "" |} "model"
            {[ "time" := "time"; "fs" := "github.com/spf13/afero" ]} [])
     = scaffold "model" +:+ "import (" +:+ nl
       +:+ tab +:+ "fs " +:+ dq +:+ "github.com/spf13/afero" +:+ dq +:+ nl
       +:+ tab +:+ dq +:+ "time" +:+ dq +:+ nl
       +:+ ")" +:+ nl.
Proof.
  split.
  - eexists _, _. split; [reflexivity|]. vm_compute. discriminate.
  - vm_compute. reflexivity.
Qed.

Example user_buffer :
  Generate fmt_accept range_canonical (∅ : gmap string string) userPkg "User" "" ""
  = ({[ "model/user_accessor.go" :=
          scaffold "model" +:+ "import (" +:+ nl
          +:+ tab +:+ dq +:+ "time" +:+ dq +:+ nl +:+ ")" +:+ nl
          +:+ getter_tpl "u" "User" "Name" "name" "string" +:+ nl
          +:+ getter_tpl "u" "User" "Age" "age" "int" +:+ nl
          +:+ setter_tpl "u" "User" "SetAge" "age" "int" +:+ nl
          +:+ setter_tpl "u" "User" "Birth" "born" "*time.Time" +:+ nl ]}, Ok tt).
Proof. vm_compute. reflexivity. Qed.

(** ** Failures and empty outputs *)

Lemma forEach_unchanged {S A} (body : S -> A -> result S) s (l : list A) :
  (forall a, a ∈ l -> body s a = Ok s) -> forEach body s l = Ok s.
Proof.
  induction l as [|a l IH]; intros Hl; simpl; [reflexivity|].
  rewrite (Hl a) by apply list_elem_of_here. simpl.
  apply IH. intros a' Ha'. apply Hl. apply list_elem_of_further. exact Ha'.
Qed.

Lemma walk_noTaggedField pkg typeName receiver :
  noTaggedField pkg typeName -> walk pkg typeName receiver = Ok (∅, []).
Proof.
  intros Hno. unfold walk. apply forEach_unchanged. intros file Hfile.
  unfold fileStep. apply forEach_unchanged. intros st Hst.
  unfold structStep. destruct (String.eqb_spec (st_Name st) typeName) as [Heq|Hne];
    simpl; [|reflexivity].
  apply forEach_unchanged. intros field Hfield. unfold fieldStep.
  rewrite (Hno file st field Hfile Hst Heq Hfield). reflexivity.
Qed.

(** C5: when no struct has the requested name, or those that have it have
    no tagged field, the buffer holds the header comment and the package
    clause and nothing else, and [Generate] still goes on to format it and
    to write the file: what the formatter returns for these lines is
    written to the output path. *)
Theorem C5_empty_scaffold_is_written {F} `{Fs F} format_Source range_keys
    (fs : F) pkg typeName output receiver :
  noTaggedField pkg typeName ->
  (exists imports accessors,
      walk pkg typeName receiver = Ok (imports, accessors)
      /\ imports = ∅ /\ accessors = []
      /\ buf (write range_keys {| buf := "" |} (pkg_Name pkg) imports accessors)
         = scaffold (pkg_Name pkg))
  /\ (forall content,
        format_Source (scaffold (pkg_Name pkg)) = inl content ->
        Generate format_Source range_keys fs pkg typeName output receiver
        = written (WriteFile fs (outputFile output typeName (pkg_Dir pkg))
                     content 420%N)).
Proof.
  intros Hno. pose proof (walk_noTaggedField pkg typeName receiver Hno) as Hw.
  assert (Hbuf : buf (write range_keys {| buf := "" |} (pkg_Name pkg) ∅ [])
                 = scaffold (pkg_Name pkg)).
  { rewrite buf_write. rewrite map_size_empty. simpl. rewrite !append_nil_r.
    reflexivity. }
  split.
  - exists ∅, []. auto.
  - intros content Hfmt. unfold Generate. rewrite Hw. unfold format.
    rewrite Hbuf, Hfmt. unfold written.
    destruct (WriteFile fs _ content 420%N) as [fs' [err|]]; reflexivity.
Qed.

Lemma C5_empty_scaffold_is_written_witness :
  Generate fmt_accept range_canonical (∅ : gmap string string) userPkg "Widget" "" ""
  = ({[ "model/widget_accessor.go" := scaffold "model" ]}, Ok tt).
Proof.
  assert (Hno : noTaggedField userPkg "Widget").
  { intros file st field Hfile Hst Hname.
    apply list_elem_of_singleton in Hfile. subst file.
    apply list_elem_of_singleton in Hst. subst st. discriminate Hname. }
  destruct (C5_empty_scaffold_is_written fmt_accept range_canonical
              (∅ : gmap string string) userPkg "Widget" "" "" Hno) as [_ Hgen].
  rewrite (Hgen (scaffold "model") eq_refl). reflexivity.
Defined.

(** C1 (as amended): when formatting fails, [format] returns the raw
    buffer together with the error, to [Generate]; [Generate] returns the
    error alone and leaves the file system as it was, so the raw buffer
    does not reach its caller. *)
Theorem C1_format_failure_returns_error_only {F} `{Fs F} format_Source range_keys
    (fs : F) pkg typeName output receiver imports accessors err :
  walk pkg typeName receiver = Ok (imports, accessors) ->
  format_Source
    (buf (write range_keys {| buf := "" |} (pkg_Name pkg) imports accessors))
  = inr err ->
  format format_Source
    (write range_keys {| buf := "" |} (pkg_Name pkg) imports accessors)
  = (buf (write range_keys {| buf := "" |} (pkg_Name pkg) imports accessors),
     Some err)
  /\ Generate format_Source range_keys fs pkg typeName output receiver
     = (fs, Err err).
Proof.
  intros Hw Hfmt. split.
  - unfold format. rewrite Hfmt. reflexivity.
  - unfold Generate. rewrite Hw. unfold format. rewrite Hfmt. reflexivity.
Qed.

Lemma C1_format_failure_returns_error_only_witness :
  exists imports accessors,
    format fmt_reject
      (write range_canonical {| buf := "" |} "model" imports accessors)
    = (buf (write range_canonical {| buf := "" |} "model" imports accessors),
       Some "1:1: expected 'package', found 'EOF'")
    /\ Generate fmt_reject range_canonical (∅ : gmap string string)
         userPkg "User" "" ""
       = (∅, Err "1:1: expected 'package', found 'EOF'").
Proof.
  eexists _, _.
  apply (C1_format_failure_returns_error_only fmt_reject range_canonical
           (∅ : gmap string string) userPkg "User" "" "").
  - reflexivity.
  - reflexivity.
Defined.

(** C1 as stated fails: with a formatter that rejects its input, two
    packages that differ in their name have different raw buffers, and
    [Generate] hands the same error and the same untouched file system to
    its caller for both. *)
Lemma C1_raw_buffer_is_dropped : ~ rawBufferReachesCaller.
Proof.
  intros Hclaim. destruct (Hclaim fmt_reject) as [recover Hrec].
  pose proof (Hrec ∅ {| pkg_Name := "a"; pkg_Dir := "."; pkg_Files := [] |}
                "T" "" "" ∅ [] _ eq_refl eq_refl) as Ha.
  pose proof (Hrec ∅ {| pkg_Name := "b"; pkg_Dir := "."; pkg_Files := [] |}
                "T" "" "" ∅ [] _ eq_refl eq_refl) as Hb.
  change (Generate fmt_reject range_canonical ∅
            {| pkg_Name := "b"; pkg_Dir := "."; pkg_Files := [] |} "T" "" "")
    with (Generate fmt_reject range_canonical ∅
            {| pkg_Name := "a"; pkg_Dir := "."; pkg_Files := [] |} "T" "" "") in Hb.
  rewrite Ha in Hb. vm_compute in Hb. discriminate Hb.
Qed.

(** ** The output file name *)

Lemma isUpper_not_lower c : isUpper c = true -> isLower c = false.
Proof.
  unfold isUpper, isLower. rewrite andb_true_iff, andb_false_iff, !N.leb_le, !N.leb_gt.
  lia.
Qed.

Lemma isUpper_not_digit c : isUpper c = true -> isDigit c = false.
Proof.
  unfold isUpper, isDigit. rewrite andb_true_iff, andb_false_iff, !N.leb_le, !N.leb_gt.
  lia.
Qed.

Lemma isLower_not_upper c : isLower c = true -> isUpper c = false.
Proof.
  unfold isUpper, isLower. rewrite andb_true_iff, andb_false_iff, !N.leb_le, !N.leb_gt.
  lia.
Qed.

Lemma spec_pass2_cons c y :
  spec_pass2 (String c y)
  = String c (if (isLower c || isDigit c) && headUpper y
              then String "_" (spec_pass2 y) else spec_pass2 y).
Proof.
  destruct y as [|u y]; simpl.
  - rewrite andb_false_r. reflexivity.
  - destruct ((isLower c || isDigit c) && isUpper u); reflexivity.
Qed.

Lemma spec_pass2_underscore y : spec_pass2 (String "_" y) = String "_" (spec_pass2 y).
Proof. rewrite spec_pass2_cons. reflexivity. Qed.

Lemma spec_pass2_upper u y :
  isUpper u = true -> spec_pass2 (String u y) = String u (spec_pass2 y).
Proof.
  intros Hu. rewrite spec_pass2_cons.
  rewrite (isUpper_not_lower u Hu), (isUpper_not_digit u Hu). reflexivity.
Qed.

Lemma headUpper_firstCap_scan b s : headUpper (firstCap_scan b s) = headUpper s.
Proof.
  destruct s as [|c rest]; [reflexivity|]. simpl.
  repeat (case_match; try reflexivity).
Qed.

Lemma headUpper_spec_pass1 s : headUpper (spec_pass1 s) = headUpper s.
Proof.
  destruct s as [|c rest]; [reflexivity|]. simpl.
  repeat (case_match; try reflexivity).
Qed.

(** The second pattern cannot match twice on one character, so its
    replacement is the position-wise insertion. *)
Lemma articleCapMatcher_replace_spec s :
  articleCapMatcher_replace s = spec_pass2 s.
Proof.
  assert (Hgen : forall n s, String.length s <= n ->
                 articleCapMatcher_replace s = spec_pass2 s).
  { clear s. induction n as [|n IH]; intros s Hlen.
    - destruct s; [reflexivity|simpl in Hlen; lia].
    - destruct s as [|c rest]; [reflexivity|].
      destruct rest as [|u after]; [reflexivity|].
      simpl in Hlen.
      change (articleCapMatcher_replace (String c (String u after)))
        with (if (isLower c || isDigit c) && isUpper u
              then String c (String "_" (String u (articleCapMatcher_replace after)))
              else String c (articleCapMatcher_replace (String u after))).
      rewrite (spec_pass2_cons c (String u after)). simpl headUpper.
      destruct ((isLower c || isDigit c) && isUpper u) eqn:Hm.
      + apply andb_prop in Hm as [_ Hu].
        rewrite (spec_pass2_upper u after Hu).
        rewrite (IH after) by lia. reflexivity.
      + rewrite (IH (String u after)) by (simpl; lia). reflexivity. }
  apply (Hgen (String.length s)). lia.
Qed.

(** A letter the first pattern has consumed gets its underscore from the
    second pass: after both passes the scan and the position-wise
    insertion agree. *)
Lemma passes_refine_spec s b :
  noLineFeed s = true ->
  spec_pass2 (firstCap_scan b s) = spec_pass2 (spec_pass1 s).
Proof.
  assert (Hgen : forall n s b, String.length s <= n -> noLineFeed s = true ->
                 spec_pass2 (firstCap_scan b s) = spec_pass2 (spec_pass1 s)).
  { clear s b. induction n as [|n IH]; intros s b Hlen Hlf.
    - destruct s; [reflexivity|simpl in Hlen; lia].
    - destruct s as [|c rest]; [reflexivity|].
      simpl in Hlen. simpl in Hlf. apply andb_prop in Hlf as [Hc Hrest].
      simpl firstCap_scan.
      destruct (b && isLower c) eqn:Hrun.
      + (* inside the run of the match in progress *)
        apply andb_prop in Hrun as [_ Hlow].
        rewrite spec_pass2_cons, headUpper_firstCap_scan, Hlow. simpl orb.
        rewrite (IH rest true) by (auto; lia).
        destruct rest as [|u after]; [reflexivity|].
        destruct after as [|l after'].
        { simpl spec_pass1. rewrite (spec_pass2_cons c), Hlow. reflexivity. }
        change (spec_pass1 (String c (String u (String l after'))))
          with (if isUpper u && isLower l
                then String c (String "_" (spec_pass1 (String u (String l after'))))
                else String c (spec_pass1 (String u (String l after')))).
        destruct (isUpper u && isLower l) eqn:Hm.
        * apply andb_prop in Hm as [Hu _].
          rewrite (spec_pass2_cons c (String "_" _)). simpl headUpper.
          change (isUpper "_") with false. rewrite andb_false_r.
          rewrite spec_pass2_underscore. simpl headUpper. rewrite Hu. reflexivity.
        * rewrite (spec_pass2_cons c (spec_pass1 _)), headUpper_spec_pass1, Hlow.
          reflexivity.
      + destruct rest as [|u after]; [reflexivity|].
        destruct after as [|l after']; [reflexivity|].
        change (spec_pass1 (String c (String u (String l after'))))
          with (if isUpper u && isLower l
                then String c (String "_" (spec_pass1 (String u (String l after'))))
                else String c (spec_pass1 (String u (String l after')))).
        rewrite Hc. simpl andb.
        destruct (isUpper u && isLower l) eqn:Hm.
        * (* a match begins at [c] *)
          apply andb_prop in Hm as [Hu Hl].
          assert (Hsp : spec_pass1 (String u (String l after'))
                        = String u (spec_pass1 (String l after'))).
          { simpl. destruct after' as [|x after'']; [reflexivity|].
            rewrite (isLower_not_upper l Hl). reflexivity. }
          rewrite Hsp.
          rewrite !(spec_pass2_cons c (String "_" _)). simpl headUpper.
          change (isUpper "_") with false. rewrite andb_false_r.
          rewrite !spec_pass2_underscore, !(spec_pass2_upper u _ Hu).
          simpl in Hrest. apply andb_prop in Hrest as [_ Hafter].
          rewrite (IH (String l after') true) by (auto; simpl in *; lia).
          reflexivity.
        * (* no match begins at [c] *)
          rewrite !(spec_pass2_cons c), headUpper_firstCap_scan, headUpper_spec_pass1.
          rewrite (IH (String u (String l after')) false) by (auto; simpl in *; lia).
          reflexivity. }
  intros Hlf. apply (Hgen (String.length s)); [lia|exact Hlf].
Qed.

Lemma ToLower_ascii c rest :
  isASCII c = true -> ToLower (String c rest) = String (lowerByte c) (ToLower rest).
Proof. intros Hc. simpl. rewrite Hc. reflexivity. Qed.

Lemma ToLower_latin1 c d rest :
  isASCII c = false -> ((code c =? 195)%N && isLatin1UpperTail d) = true ->
  ToLower (String c (String d rest))
  = String c (String (ascii_of_N (code d + 32)) (ToLower rest)).
Proof. intros Hc Hd. simpl. rewrite Hc, Hd. reflexivity. Qed.

Lemma ToLower_copied c d rest :
  isASCII c = false -> ((code c =? 195)%N && isLatin1UpperTail d) = false ->
  ToLower (String c (String d rest)) = String c (ToLower (String d rest)).
Proof. intros Hc Hd. simpl. rewrite Hc, Hd. reflexivity. Qed.

Lemma ToLower_last c : isASCII c = false -> ToLower (String c "") = String c "".
Proof. intros Hc. simpl. rewrite Hc. reflexivity. Qed.

Lemma ToLower_app s t :
  match t with String d _ => isASCII d = true | "" => True end ->
  ToLower (s +:+ t) = ToLower s +:+ ToLower t.
Proof.
  intros Ht.
  assert (Hgen : forall n s, String.length s <= n ->
                 ToLower (s +:+ t) = ToLower s +:+ ToLower t).
  { clear s. induction n as [|n IH]; intros s Hlen.
    - destruct s; [reflexivity|simpl in Hlen; lia].
    - destruct s as [|c rest]; [reflexivity|]. simpl in Hlen.
      change (String c rest +:+ t) with (String c (rest +:+ t)).
      destruct (isASCII c) eqn:Hc.
      + rewrite !(ToLower_ascii c _ Hc), (IH rest) by lia. reflexivity.
      + destruct rest as [|d rest'].
        * change ("" +:+ t) with t. rewrite (ToLower_last c Hc).
          destruct t as [|d t']; [apply ToLower_last; exact Hc|].
          rewrite ToLower_copied; [reflexivity|exact Hc|].
          unfold isLatin1UpperTail. unfold isASCII in Ht. apply N.ltb_lt in Ht.
          replace (128 <=? code d)%N with false; [apply andb_false_r|].
          symmetry. apply N.leb_gt. exact Ht.
        * change (String d rest' +:+ t) with (String d (rest' +:+ t)).
          destruct ((code c =? 195)%N && isLatin1UpperTail d) eqn:Hd.
          -- rewrite !(ToLower_latin1 c d _ Hc Hd), (IH rest') by (simpl in Hlen; lia).
             reflexivity.
          -- rewrite !(ToLower_copied c d _ Hc Hd).
             change (String d (rest' +:+ t)) with (String d rest' +:+ t).
             rewrite (IH (String d rest')) by (simpl in *; lia). reflexivity. }
  apply (Hgen (String.length s)). lia.
Qed.

(** C8: with no output override the file name is the type name after the
    two passes of the specification, in lower case, followed by
    [_accessor] and the extension [.go], joined to the directory of the
    package; [UserProfile] gives [user_profile_accessor.go] and [Widget]
    gives [widget_accessor.go].  Type names hold no line feed. *)
Theorem C8_outputFile_default typeName dir :
  noLineFeed typeName = true ->
  outputFile "" typeName dir = Join dir (spec_fileName typeName)
  /\ spec_fileName "UserProfile" = "user_profile_accessor.go"
  /\ spec_fileName "Widget" = "widget_accessor.go"
  /\ outputFile "" "UserProfile" "." = "user_profile_accessor.go"
  /\ outputFile "" "Widget" "." = "widget_accessor.go"
  /\ outputFile "" "UserProfile" "pkg/model" = "pkg/model/user_profile_accessor.go".
Proof.
  intros Hlf. split; [|repeat split; reflexivity].
  unfold outputFile, spec_fileName, firstCapMatcher_replace. simpl String.eqb. cbv iota.
  rewrite articleCapMatcher_replace_spec, (passes_refine_spec _ false Hlf).
  rewrite (ToLower_app _ "_accessor.go") by reflexivity. reflexivity.
Qed.

Lemma C8_outputFile_default_witness :
  outputFile "" "HTTPServer" "/srv" = Join "/srv" (spec_fileName "HTTPServer")
  /\ outputFile "" "HTTPServer" "/srv" = "/srv/http_server_accessor.go".
Proof.
  split.
  - apply (C8_outputFile_default "HTTPServer" "/srv"). reflexivity.
  - reflexivity.
Defined.

(** ** The import set *)

Lemma findImport_aliasPath imps a (m : gmap string string) :
  findImport imps a m
  = match aliasPath imps a with Some p => <[a := p]> m | None => m end.
Proof.
  induction imps as [|imp imps IH]; simpl; [reflexivity|].
  destruct (String.eqb_spec (imp_Name imp) a) as [->|_]; [reflexivity|apply IH].
Qed.

Lemma fieldStep_imports receiver file st imports accessors field imports' accessors' :
  fieldStep receiver file st (imports, accessors) field = Ok (imports', accessors') ->
  imports' = foldl record imports (fieldCands file field).
Proof.
  unfold fieldStep, fieldCands. destruct (fld_Tag field) as [tag|]; simpl.
  - unfold record. simpl. rewrite findImport_aliasPath.
    destruct (match tag_Getter tag with
              | Some _ => _ | None => _ end) as [acc1|e|m]; simpl; try discriminate.
    destruct (match tag_Setter tag with
              | Some _ => _ | None => _ end) as [acc2|e|m]; simpl; try discriminate.
    intros [= <- _]. reflexivity.
  - intros [= <- _]. reflexivity.
Qed.

Lemma forEach_imports {A} (body : gmap string string * list string -> A ->
                                  result (gmap string string * list string))
    (cands : A -> list (string * File)) :
  (forall s a s', body s a = Ok s' -> s'.1 = foldl record s.1 (cands a)) ->
  forall l s s', forEach body s l = Ok s' -> s'.1 = foldl record s.1 (l ≫= cands).
Proof.
  intros Hbody. induction l as [|a l IH]; intros s s' Hrun; simpl in *.
  - injection Hrun as <-. reflexivity.
  - destruct (body s a) as [s1|e|m] eqn:Hs1; simpl in Hrun; try discriminate.
    rewrite foldl_app, <- (Hbody s a s1 Hs1). apply IH. exact Hrun.
Qed.

Lemma walk_imports pkg typeName receiver imports accessors :
  walk pkg typeName receiver = Ok (imports, accessors) ->
  imports = foldl record ∅ (candidates pkg typeName).
Proof.
  intros Hw. unfold walk in Hw.
  apply (forEach_imports _ (fileCands typeName)) in Hw; [exact Hw|].
  intros s file s' Hfile. unfold fileStep in Hfile.
  apply (forEach_imports _ (structCands typeName file)) in Hfile; [exact Hfile|].
  intros t st t' Hst. unfold structStep, structCands in *.
  destruct (String.eqb (st_Name st) typeName); simpl in Hst.
  - apply (forEach_imports _ (fieldCands file)) in Hst; [exact Hst|].
    intros [m acc] field [m' acc'] Hfield. simpl.
    apply (fieldStep_imports _ _ _ _ _ _ _ _ Hfield).
  - injection Hst as <-. reflexivity.
Qed.

Lemma record_lookup (m : gmap string string) cand a :
  record m cand !! a
  = match m !! a with
    | Some p => Some p
    | None => if decide (cand.1 = a) then aliasPath (file_Imports cand.2) a else None
    end.
Proof.
  unfold record. destruct cand as [b file]; simpl.
  destruct (decide (b = a)) as [->|Hne].
  - destruct (m !! a) as [p|] eqn:Hm; [exact Hm|].
    destruct (aliasPath (file_Imports file) a) as [p|]; [apply lookup_insert_eq|exact Hm].
  - destruct (m !! b) as [q|]; [destruct (m !! a); reflexivity|].
    destruct (aliasPath (file_Imports file) b) as [q|].
    + rewrite lookup_insert_ne by exact Hne. destruct (m !! a); reflexivity.
    + destruct (m !! a); reflexivity.
Qed.

Lemma foldl_record_lookup cands (m : gmap string string) a p :
  foldl record m cands !! a = Some p <->
  m !! a = Some p \/ (m !! a = None /\ firstResolved cands a p).
Proof.
  revert m. induction cands as [|cand cands IH]; intros m; simpl.
  - split; [auto|]. intros [Hm|[_ (l1 & file & l2 & Heq & _)]]; [exact Hm|].
    destruct l1; discriminate.
  - rewrite IH, record_lookup. destruct (m !! a) as [q|] eqn:Hm.
    + split; [intros [Hq|[Hq _]]; [auto|discriminate]|].
      intros [Hq|[Hq _]]; [auto|discriminate].
    + destruct cand as [b file]. simpl. destruct (decide (b = a)) as [->|Hne].
      * split.
        -- intros [Hp|[Hnone (l1 & file' & l2 & Heq & Hp & Hbefore)]].
           ++ right. split; [reflexivity|]. exists [], file, cands.
              split; [reflexivity|]. split; [exact Hp|]. intros f Hf.
              apply elem_of_nil in Hf. contradiction.
           ++ right. split; [reflexivity|]. exists ((a, file) :: l1), file', l2.
              split; [rewrite Heq; reflexivity|]. split; [exact Hp|].
              intros f Hf. apply elem_of_cons in Hf as [[= ->]|Hf]; [exact Hnone|].
              apply Hbefore. exact Hf.
        -- intros [Hp|[_ (l1 & file' & l2 & Heq & Hp & Hbefore)]]; [discriminate|].
           destruct l1 as [|c1 l1]; simpl in Heq.
           ++ injection Heq as -> ->. left. exact Hp.
           ++ injection Heq as <- ->. right. split.
              ** apply Hbefore. apply list_elem_of_here.
              ** exists l1, file', l2. split; [reflexivity|]. split; [exact Hp|].
                 intros f Hf. apply Hbefore. apply list_elem_of_further. exact Hf.
      * split.
        -- intros [Hp|[_ (l1 & file' & l2 & Heq & Hp & Hbefore)]]; [discriminate|].
           right. split; [reflexivity|]. exists ((b, file) :: l1), file', l2.
           split; [rewrite Heq; reflexivity|]. split; [exact Hp|].
           intros f Hf. apply elem_of_cons in Hf as [[= <-]|Hf]; [contradiction|].
           apply Hbefore. exact Hf.
        -- intros [Hp|[_ (l1 & file' & l2 & Heq & Hp & Hbefore)]]; [discriminate|].
           right. split; [reflexivity|].
           destruct l1 as [|c1 l1]; simpl in Heq.
           ++ injection Heq as -> ->. contradiction.
           ++ injection Heq as <- ->. exists l1, file', l2.
              split; [reflexivity|]. split; [exact Hp|].
              intros f Hf. apply Hbefore. apply list_elem_of_further. exact Hf.
Qed.

Lemma hasDot_cons c s : hasDot (String c s) = Ascii.eqb c "." || hasDot s.
Proof.
  change (hasDot (String c s)) with (Ascii.eqb "." c || hasDot s).
  rewrite (Ascii.eqb_sym "." c). reflexivity.
Qed.

Lemma Split_dot_cons c s :
  Split_dot (String c s)
  = if Ascii.eqb c "." then "" :: Split_dot s
    else match Split_dot s with
         | piece :: pieces => String c piece :: pieces
         | [] => [String c ""]
         end.
Proof. reflexivity. Qed.


Lemma elem_of_candidates pkg typeName a file :
  (a, file) ∈ candidates pkg typeName <->
  exists st field,
    file ∈ pkg_Files pkg /\ st ∈ file_Structs file /\ st_Name st = typeName
    /\ field ∈ st_Fields st /\ fld_Tag field <> None /\ typePkgOf field = a.
Proof.
  unfold candidates, fileCands, structCands, fieldCands. split.
  - intros Hin. apply list_elem_of_bind in Hin as (file' & Hin & Hfile).
    apply list_elem_of_bind in Hin as (st & Hin & Hst).
    destruct (String.eqb_spec (st_Name st) typeName) as [Hname|_];
      [|apply elem_of_nil in Hin; contradiction].
    apply list_elem_of_bind in Hin as (field & Hin & Hfield).
    destruct (fld_Tag field) as [tag|] eqn:Htag;
      [|apply elem_of_nil in Hin; contradiction].
    apply list_elem_of_singleton in Hin. injection Hin as -> ->.
    exists st, field. rewrite Htag. repeat split; auto.
  - intros (st & field & Hfile & Hst & Hname & Hfield & Htag & Ha).
    apply list_elem_of_bind. exists file. split; [|exact Hfile].
    apply list_elem_of_bind. exists st. split; [|exact Hst].
    destruct (String.eqb_spec (st_Name st) typeName) as [_|Hne]; [|contradiction].
    apply list_elem_of_bind. exists field. split; [|exact Hfield].
    destruct (fld_Tag field); [|contradiction].
    rewrite Ha. apply list_elem_of_here.
Qed.







(** A tag that asks for neither accessor: nothing is generated for the
    field and its import is recorded all the same, so the file that is
    written imports a package it does not use. *)
Example stamp_import_without_accessor :
  walk stampPkg "Stamp" "" = Ok ({[ "time" := "time" ]}, []).
Proof. vm_compute. reflexivity. Qed.

Example stamp_output :
  Generate fmt_accept range_canonical (∅ : gmap string string) stampPkg "Stamp" "" ""
  = ({[ "model/stamp_accessor.go" :=
          scaffold "model" +:+ "import (" +:+ nl
          +:+ tab +:+ dq +:+ "time" +:+ dq +:+ nl +:+ ")" +:+ nl ]}, Ok tt).
Proof. vm_compute. reflexivity. Qed.

(** * Further properties of the generator *)

(** ** The walk *)

Lemma fieldStep_resolved receiver file st imports accessors field r :
  receiverName receiver (st_Name st) = Ok r ->
  fieldStep receiver file st (imports, accessors) field
  = Ok (foldl record imports (fieldCands file field),
        (accessors ++ fieldAccessors r (st_Name st) field)%list).
Proof.
  intros Hr. unfold fieldStep, fieldCands, fieldAccessors, getterGenerator,
    setterGenerator.
  destruct (fld_Tag field) as [tag|]; simpl.
  - unfold record. simpl. rewrite findImport_aliasPath, Hr.
    destruct (tag_Getter tag) as [g|], (tag_Setter tag) as [s|]; simpl;
      rewrite ?app_nil_r, <- ?app_assoc; reflexivity.
  - rewrite app_nil_r. reflexivity.
Qed.

Lemma forEach_collect {A}
    (body : gmap string string * list string -> A ->
            result (gmap string string * list string))
    (cands : A -> list (string * File)) (accs : A -> list string) l :
  (forall m acc a, a ∈ l ->
     body (m, acc) a = Ok (foldl record m (cands a), (acc ++ accs a)%list)) ->
  forall m acc,
    forEach body (m, acc) l
    = Ok (foldl record m (l ≫= cands), (acc ++ (l ≫= accs))%list).
Proof.
  induction l as [|a l IH]; intros Hbody m acc; simpl.
  - rewrite app_nil_r. reflexivity.
  - rewrite (Hbody m acc a) by apply list_elem_of_here. simpl.
    rewrite IH.
    + rewrite foldl_app, <- app_assoc. reflexivity.
    + intros m' acc' a' Ha'. apply Hbody. apply list_elem_of_further. exact Ha'.
Qed.

Lemma walk_resolved pkg typeName receiver r :
  receiverName receiver typeName = Ok r ->
  walk pkg typeName receiver
  = Ok (foldl record ∅ (candidates pkg typeName), accessorsOf r pkg typeName).
Proof.
  intros Hr. unfold walk, candidates, accessorsOf.
  rewrite (forEach_collect _ (fileCands typeName)
             (fun file => file_Structs file ≫= structAccessors r typeName));
    [reflexivity|].
  intros m acc file _. unfold fileStep, fileCands.
  apply (forEach_collect _ (structCands typeName file) (structAccessors r typeName)).
  intros m' acc' st _. unfold structStep, structCands, structAccessors.
  destruct (String.eqb_spec (st_Name st) typeName) as [Hname|_]; simpl.
  - apply (forEach_collect _ (fieldCands file) (fieldAccessors r typeName)).
    intros m'' acc'' field _. rewrite <- Hname.
    apply fieldStep_resolved. rewrite Hname. exact Hr.
  - rewrite app_nil_r. reflexivity.
Qed.

(** X1: when a receiver can be derived for the requested type (an override
    is given or the type name is not empty) the walk returns, and it
    returns the import map built by the lookups in order together with the
    accessors of the selected fields in the order of the files, of the
    structs in a file and of the fields in a struct, the getter of a field
    before its setter, all with the same receiver. *)
Theorem walk_returns pkg typeName receiver r :
  receiverName receiver typeName = Ok r ->
  walk pkg typeName receiver
  = Ok (foldl record ∅ (candidates pkg typeName), accessorsOf r pkg typeName).
Proof. apply walk_resolved. Qed.

Lemma walk_returns_witness :
  walk userPkg "User" "self"
  = Ok (foldl record ∅ (candidates userPkg "User"), accessorsOf "self" userPkg "User").
Proof.
  apply (walk_returns userPkg "User" "self" "self"). reflexivity.
Defined.

Lemma receiverName_panics userInput structName :
  (forall r, receiverName userInput structName <> Ok r) ->
  userInput = "" /\ structName = "".
Proof.
  unfold receiverName. intros Hno.
  destruct (String.eqb_spec userInput "") as [->|Hne]; simpl in Hno.
  - destruct structName; [auto|]. exfalso. eapply Hno. reflexivity.
  - exfalso. eapply Hno. reflexivity.
Qed.

Lemma fieldStep_unresolved file st imports accessors field :
  st_Name st = "" ->
  fieldStep "" file st (imports, accessors) field
  = if emits field then Panic index_out_of_range
    else Ok (foldl record imports (fieldCands file field), accessors).
Proof.
  intros Hname. unfold fieldStep, fieldCands, emits, getterGenerator,
    setterGenerator.
  destruct (fld_Tag field) as [tag|]; simpl; [|reflexivity].
  rewrite Hname. unfold record. simpl. rewrite findImport_aliasPath.
  destruct (tag_Getter tag) as [g|], (tag_Setter tag) as [s|]; reflexivity.
Qed.

Lemma forEach_panics {S A} (body : S -> A -> result S) (bad : A -> bool) msg l :
  (forall s a, a ∈ l -> bad a = true -> body s a = Panic msg) ->
  (forall s a, a ∈ l -> bad a = false -> exists s', body s a = Ok s') ->
  forall s,
    if existsb bad l then forEach body s l = Panic msg
    else exists s', forEach body s l = Ok s'.
Proof.
  induction l as [|a l IH]; intros Hbad Hgood s; simpl.
  - eexists. reflexivity.
  - assert (IH' : forall s, if existsb bad l then forEach body s l = Panic msg
                            else exists s', forEach body s l = Ok s').
    { apply IH; intros s0 a0 Ha0; [apply Hbad|apply Hgood];
        apply list_elem_of_further; exact Ha0. }
    destruct (bad a) eqn:Ha; simpl.
    + rewrite (Hbad s a (list_elem_of_here _ _) Ha). reflexivity.
    + destruct (Hgood s a (list_elem_of_here _ _) Ha) as [s1 ->]. simpl. apply IH'.
Qed.

Lemma existsb_fileNamelessEmits pkg :
  existsb fileNamelessEmits (pkg_Files pkg) = true <->
  exists field, field ∈ selectedFields pkg "" /\ emits field = true.
Proof.
  unfold selectedFields, fileNamelessEmits, namelessEmits.
  rewrite existsb_exists. split.
  - intros (file & Hfile & Hsome). apply existsb_exists in Hsome as (st & Hst & Hsome).
    apply andb_prop in Hsome as [Hname Hsome].
    apply existsb_exists in Hsome as (field & Hfield & Hemits).
    exists field. split; [|exact Hemits].
    apply list_elem_of_bind. exists file. split; [|apply list_elem_of_In; exact Hfile].
    apply list_elem_of_bind. exists st. split; [|apply list_elem_of_In; exact Hst].
    rewrite Hname. apply list_elem_of_In. exact Hfield.
  - intros (field & Hin & Hemits).
    apply list_elem_of_bind in Hin as (file & Hin & Hfile).
    apply list_elem_of_bind in Hin as (st & Hin & Hst).
    destruct (String.eqb (st_Name st) "") eqn:Hname;
      [|apply elem_of_nil in Hin; contradiction].
    exists file. split; [apply list_elem_of_In; exact Hfile|].
    apply existsb_exists. exists st. split; [apply list_elem_of_In; exact Hst|].
    rewrite Hname. simpl. apply existsb_exists. exists field.
    split; [apply list_elem_of_In; exact Hin|exact Hemits].
Qed.

Lemma forEach_panics_if {S A} (body : S -> A -> result S) (bad : A -> bool) msg l :
  (forall s a, if bad a then body s a = Panic msg else exists s', body s a = Ok s') ->
  forall s,
    if existsb bad l then forEach body s l = Panic msg
    else exists s', forEach body s l = Ok s'.
Proof.
  intros Hbody. apply forEach_panics; intros s a _ Ha;
    specialize (Hbody s a); rewrite Ha in Hbody; exact Hbody.
Qed.

Lemma structStep_unresolved file s st :
  if namelessEmits st then structStep "" "" file s st = Panic index_out_of_range
  else exists s', structStep "" "" file s st = Ok s'.
Proof.
  unfold namelessEmits, structStep.
  destruct (String.eqb_spec (st_Name st) "") as [Hname|_]; simpl;
    [|eexists; reflexivity].
  apply forEach_panics_if. intros [m acc] field.
  rewrite (fieldStep_unresolved _ _ _ _ _ Hname).
  destruct (emits field); [reflexivity|eexists; reflexivity].
Qed.

Lemma walk_unresolved pkg :
  if existsb fileNamelessEmits (pkg_Files pkg)
  then walk pkg "" "" = Panic index_out_of_range
  else exists s', walk pkg "" "" = Ok s'.
Proof.
  unfold walk. apply forEach_panics_if. intros s file.
  unfold fileNamelessEmits, fileStep. apply forEach_panics_if.
  intros t st. apply structStep_unresolved.
Qed.

Lemma walk_outcome pkg typeName receiver :
  (forall e, walk pkg typeName receiver <> Err e)
  /\ (forall msg,
        walk pkg typeName receiver = Panic msg <->
        msg = index_out_of_range /\ receiver = "" /\ typeName = ""
        /\ exists field, field ∈ selectedFields pkg "" /\ emits field = true).
Proof.
  destruct (receiverName receiver typeName) as [r|e|m] eqn:Hr.
  - rewrite (walk_resolved pkg typeName receiver r Hr). split; [discriminate|].
    intros msg. split; [discriminate|]. intros (_ & -> & -> & _). discriminate Hr.
  - unfold receiverName in Hr. destruct (negb _); [discriminate|].
    destruct typeName; discriminate.
  - destruct (receiverName_panics receiver typeName) as [-> ->].
    { intros r Hr'. rewrite Hr in Hr'. discriminate. }
    pose proof (walk_unresolved pkg) as Hw.
    pose proof (existsb_fileNamelessEmits pkg) as Hex.
    destruct (existsb fileNamelessEmits (pkg_Files pkg)).
    + rewrite Hw. split; [discriminate|]. intros msg. split.
      * intros [= <-]. repeat split; try reflexivity. apply Hex. reflexivity.
      * intros (-> & _). reflexivity.
    + destruct Hw as [s' ->]. split; [discriminate|]. intros msg.
      split; [discriminate|]. intros (_ & _ & _ & Hfield).
      apply Hex in Hfield. discriminate.
Qed.

(** X2: the walk never returns an error, and it panics in one case only:
    no receiver override is given, the requested type name is empty, and a
    struct with the empty name has a field whose tag asks for an accessor.
    The panic is then the index out of range of [receiverName]; a nil tag
    is never dereferenced. *)
Theorem walk_panics_iff pkg typeName receiver :
  (forall e, walk pkg typeName receiver <> Err e)
  /\ (forall msg,
        walk pkg typeName receiver = Panic msg <->
        msg = index_out_of_range /\ receiver = "" /\ typeName = ""
        /\ exists field, field ∈ selectedFields pkg "" /\ emits field = true).
Proof. apply walk_outcome. Qed.

Lemma fieldStep_length receiver file st imports accessors field imports' accessors' :
  fieldStep receiver file st (imports, accessors) field = Ok (imports', accessors') ->
  length accessors' = length accessors + requested field.
Proof.
  unfold fieldStep, requested, getterGenerator, setterGenerator.
  destruct (fld_Tag field) as [tag|]; simpl.
  - destruct (receiverName receiver (st_Name st)) as [r|e|m];
      destruct (tag_Getter tag) as [g|], (tag_Setter tag) as [s|]; simpl;
      try discriminate; intros [= _ <-]; rewrite ?length_app; simpl; lia.
  - intros [= _ <-]. lia.
Qed.

Lemma forEach_length {A}
    (body : gmap string string * list string -> A ->
            result (gmap string string * list string))
    (count : A -> nat) :
  (forall s a s', body s a = Ok s' -> length s'.2 = length s.2 + count a) ->
  forall l s s',
    forEach body s l = Ok s' -> length s'.2 = length s.2 + sum_list_with count l.
Proof.
  intros Hbody. induction l as [|a l IH]; intros s s' Hrun; simpl in *.
  - injection Hrun as <-. lia.
  - destruct (body s a) as [s1|e|m] eqn:Hs1; simpl in Hrun; try discriminate.
    rewrite (IH s1 s' Hrun), (Hbody s a s1 Hs1). lia.
Qed.

Lemma sum_list_with_bind {A B} (count : B -> nat) (f : A -> list B) l :
  sum_list_with count (l ≫= f)
  = sum_list_with (fun a => sum_list_with count (f a)) l.
Proof.
  induction l as [|a l IH]; [reflexivity|].
  rewrite bind_cons, sum_list_with_app, IH. reflexivity.
Qed.

(** X3: when the walk returns, it has produced one function for every
    accessor the tags of the selected fields ask for, no more and no
    fewer. *)
Theorem walk_accessor_count pkg typeName receiver imports accessors :
  walk pkg typeName receiver = Ok (imports, accessors) ->
  length accessors = sum_list_with requested (selectedFields pkg typeName).
Proof.
  intros Hw. unfold walk in Hw.
  apply (forEach_length _
           (fun file => sum_list_with requested
              (file_Structs file ≫= (fun st =>
                 if String.eqb (st_Name st) typeName then st_Fields st else []))))
    in Hw.
  - simpl in Hw. rewrite Hw. unfold selectedFields.
    rewrite sum_list_with_bind. reflexivity.
  - intros s file s' Hfile. unfold fileStep in Hfile.
    rewrite sum_list_with_bind.
    apply (forEach_length _ (fun st => sum_list_with requested
             (if String.eqb (st_Name st) typeName then st_Fields st else [])))
      in Hfile; [exact Hfile|].
    intros t st t' Hst. unfold structStep in Hst.
    destruct (String.eqb (st_Name st) typeName); simpl in Hst.
    + apply (forEach_length _ requested) in Hst; [exact Hst|].
      intros [m acc] field [m' acc'] Hfield. simpl.
      apply (fieldStep_length _ _ _ _ _ _ _ _ Hfield).
    + injection Hst as <-. simpl. lia.
Qed.

Lemma walk_accessor_count_witness :
  exists imports accessors,
    walk userPkg "User" "" = Ok (imports, accessors) /\ length accessors = 4.
Proof.
  eexists _, _. split; [vm_compute; reflexivity|].
  refine (walk_accessor_count userPkg "User" "" _ _ _). vm_compute. reflexivity.
Defined.

Lemma aliasPath_Some imps a p :
  aliasPath imps a = Some p ->
  exists imp, imp ∈ imps /\ imp_Name imp = a /\ imp_PkgPath imp = p.
Proof.
  induction imps as [|imp imps IH]; simpl; [discriminate|].
  destruct (String.eqb_spec (imp_Name imp) a) as [Hname|_].
  - intros [= <-]. exists imp. split; [apply list_elem_of_here|auto].
  - intros Hp. destruct (IH Hp) as (imp' & Hin & Himp').
    exists imp'. split; [apply list_elem_of_further; exact Hin|exact Himp'].
Qed.

(** X4: every entry of the import map is declared where it is used: its
    alias and path are an entry of the import list of a file that has a
    tagged field with this qualifier in a struct of the requested name.
    The generator never makes up an import and never takes one from a file
    that does not use it. *)
Theorem walk_imports_declared pkg typeName receiver imports accessors a p :
  walk pkg typeName receiver = Ok (imports, accessors) ->
  imports !! a = Some p ->
  exists file st field imp,
    file ∈ pkg_Files pkg /\ st ∈ file_Structs file /\ st_Name st = typeName
    /\ field ∈ st_Fields st /\ fld_Tag field <> None /\ typePkgOf field = a
    /\ imp ∈ file_Imports file /\ imp_Name imp = a /\ imp_PkgPath imp = p.
Proof.
  intros Hw Hp. rewrite (walk_imports _ _ _ _ _ Hw) in Hp.
  apply foldl_record_lookup in Hp as [Hp|[_ (l1 & file & l2 & Heq & Hpath & _)]].
  { rewrite lookup_empty in Hp. discriminate. }
  assert (Hin : (a, file) ∈ candidates pkg typeName).
  { rewrite Heq. apply elem_of_app. right. apply list_elem_of_here. }
  apply elem_of_candidates in Hin
    as (st & field & Hfile & Hst & Hname & Hfield & Htag & Hq).
  apply aliasPath_Some in Hpath as (imp & Himp & Ha & Hpath).
  exists file, st, field, imp. repeat split; assumption.
Qed.

Lemma walk_imports_declared_witness :
  exists file st field imp,
    file ∈ pkg_Files eventPkg /\ st ∈ file_Structs file /\ st_Name st = "Event"
    /\ field ∈ st_Fields st /\ fld_Tag field <> None /\ typePkgOf field = "fs"
    /\ imp ∈ file_Imports file /\ imp_Name imp = "fs"
    /\ imp_PkgPath imp = "github.com/spf13/afero".
Proof.
  refine (walk_imports_declared eventPkg "Event" ""
            {[ "time" := "time"; "fs" := "github.com/spf13/afero" ]}
            [ getter_tpl "e" "Event" "At" "at" "time.Time";
              setter_tpl "e" "Event" "SetDisk" "disk" "*fs.Fs" ]
            "fs" "github.com/spf13/afero" _ _).
  - vm_compute. reflexivity.
  - vm_compute. reflexivity.
Defined.

(** ** Assembly and persistence *)

(** X5: [write] only appends to the buffer: after what the buffer held
    come the header comment, an empty line, the package clause and an empty
    line; then the import block, left out altogether when the map is empty
    and holding one line for every entry of the map otherwise; then every
    accessor followed by a line feed, in the order given. *)
Theorem write_layout range_keys g pkgName (importMap : gmap string string) accessors :
  range_order range_keys ->
  buf (write range_keys g pkgName importMap accessors)
  = buf g +:+ scaffold pkgName
    +:+ (if decide (importMap = ∅) then ""
         else importBlock importMap (sort_Strings (range_keys importMap)))
    +:+ concatAll ((fun accessor => accessor +:+ nl) <$> accessors)
  /\ length (sort_Strings (range_keys importMap)) = size importMap.
Proof.
  intros Hrange. split.
  - rewrite buf_write. destruct (decide (importMap = ∅)) as [->|Hne].
    + rewrite map_size_empty. reflexivity.
    + rewrite bool_decide_eq_true_2; [reflexivity|].
      apply map_size_non_empty_iff in Hne. lia.
  - unfold sort_Strings. rewrite merge_sort_Permutation, (Hrange importMap).
    rewrite length_fmap. apply length_map_to_list.
Qed.

Lemma write_layout_witness :
  buf (write range_reverse {| buf := "// old" +:+ nl |} "model"
         {[ "time" := "time"; "fs" := "github.com/spf13/afero" ]} ["A"; "B"])
  = "// old" +:+ nl +:+ scaffold "model"
    +:+ importBlock {[ "time" := "time"; "fs" := "github.com/spf13/afero" ]}
          ["fs"; "time"]
    +:+ "A" +:+ nl +:+ "B" +:+ nl
  /\ length (sort_Strings (range_reverse
               ({[ "time" := "time"; "fs" := "github.com/spf13/afero" ]}
                : gmap string string))) = 2.
Proof.
  destruct (write_layout range_reverse {| buf := "// old" +:+ nl |} "model"
              {[ "time" := "time"; "fs" := "github.com/spf13/afero" ]} ["A"; "B"]
              range_reverse_order) as [Hbuf Hlen].
  split; [rewrite Hbuf; vm_compute; reflexivity|rewrite Hlen; vm_compute; reflexivity].
Defined.

(** X6: [Generate] touches the file system at most once, after the walk
    and the formatting have succeeded, by writing the formatted buffer to
    the output path with mode 0644.  It returns without an error exactly
    when that write reports none; when the walk panics or the formatter
    rejects the buffer, the file system is handed back as it was. *)
Theorem Generate_writes_once {F} `{Fs F} format_Source range_keys
    (fs fs' : F) pkg typeName output receiver res :
  Generate format_Source range_keys fs pkg typeName output receiver = (fs', res) ->
  (fs' = fs /\ res <> Ok tt
   /\ ((exists msg, walk pkg typeName receiver = Panic msg /\ res = Panic msg)
       \/ (exists imports accessors err,
             walk pkg typeName receiver = Ok (imports, accessors)
             /\ format_Source
                  (buf (write range_keys {| buf := "" |} (pkg_Name pkg)
                          imports accessors)) = inr err
             /\ res = Err err)))
  \/ (exists imports accessors content,
        walk pkg typeName receiver = Ok (imports, accessors)
        /\ format_Source
             (buf (write range_keys {| buf := "" |} (pkg_Name pkg)
                     imports accessors)) = inl content
        /\ (fs', res)
           = written (WriteFile fs (outputFile output typeName (pkg_Dir pkg))
                        content 420%N)).
Proof.
  unfold Generate. destruct (walk_outcome pkg typeName receiver) as [Hnoerr _].
  destruct (walk pkg typeName receiver) as [[imports accessors]|e|msg] eqn:Hw.
  - unfold format.
    destruct (format_Source (buf (write range_keys {| buf := "" |} (pkg_Name pkg)
                                    imports accessors))) as [content|err] eqn:Hfmt.
    + intros Hgen. right. exists imports, accessors, content.
      split; [reflexivity|]. split; [exact Hfmt|]. rewrite <- Hgen. unfold written.
      destruct (WriteFile fs _ content 420%N) as [fs1 [err|]]; reflexivity.
    + intros [= <- <-]. left. split; [reflexivity|]. split; [discriminate|].
      right. exists imports, accessors, err. auto.
  - exfalso. apply (Hnoerr e). reflexivity.
  - intros [= <- <-]. left. split; [reflexivity|]. split; [discriminate|].
    left. exists msg. auto.
Qed.

Lemma Generate_writes_once_witness :
  exists imports accessors content,
    walk userPkg "User" "" = Ok (imports, accessors)
    /\ fmt_accept (buf (write range_canonical {| buf := "" |} "model"
                          imports accessors)) = inl content
    /\ Generate fmt_accept range_canonical (∅ : gmap string string)
         userPkg "User" "" ""
       = written (WriteFile (∅ : gmap string string) "model/user_accessor.go"
                    content 420%N).
Proof.
  destruct (Generate_writes_once fmt_accept range_canonical
              (∅ : gmap string string)
              (Generate fmt_accept range_canonical (∅ : gmap string string)
                 userPkg "User" "" "").1
              userPkg "User" "" ""
              (Generate fmt_accept range_canonical (∅ : gmap string string)
                 userPkg "User" "" "").2)
    as [(_ & Hres & _)|(imports & accessors & content & Hw & Hfmt & Hgen)].
  - vm_compute. reflexivity.
  - exfalso. apply Hres. vm_compute. reflexivity.
  - exists imports, accessors, content. split; [exact Hw|]. split; [exact Hfmt|].
    etransitivity; [apply surjective_pairing|].
    etransitivity; [exact Hgen|]. reflexivity.
Defined.

(** ** The rewriting of the type name *)

Lemma dropUnderscores_cons c s :
  dropUnderscores (String c s)
  = if Ascii.eqb c "_" then dropUnderscores s else String c (dropUnderscores s).
Proof. reflexivity. Qed.

Lemma dropUnderscores_underscore s : dropUnderscores (String "_" s) = dropUnderscores s.
Proof. reflexivity. Qed.

Lemma firstCap_scan_cons b c rest :
  firstCap_scan b (String c rest)
  = if b && isLower c then String c (firstCap_scan true rest)
    else match rest with
         | String u (String l after') =>
             if negb (Ascii.eqb c (ascii_of_N 10)) && isUpper u && isLower l
             then String c (String "_" (String u (firstCap_scan true (String l after'))))
             else String c (firstCap_scan false rest)
         | _ => String c (firstCap_scan false rest)
         end.
Proof. destruct rest as [|u [|l after']]; reflexivity. Qed.

Lemma dropUnderscores_firstCap_scan s b :
  dropUnderscores (firstCap_scan b s) = dropUnderscores s.
Proof.
  assert (Hgen : forall n s b, String.length s <= n ->
                 dropUnderscores (firstCap_scan b s) = dropUnderscores s).
  { clear s b. induction n as [|n IH]; intros s b Hlen.
    - destruct s; [reflexivity|simpl in Hlen; lia].
    - destruct s as [|c rest]; [reflexivity|]. simpl in Hlen.
      rewrite firstCap_scan_cons. destruct (b && isLower c).
      + rewrite !(dropUnderscores_cons c), (IH rest true) by lia. reflexivity.
      + destruct rest as [|u [|l after']].
        * reflexivity.
        * rewrite !(dropUnderscores_cons c), (IH _ false) by (simpl in *; lia).
          reflexivity.
        * destruct (negb (Ascii.eqb c (ascii_of_N 10)) && isUpper u && isLower l).
          -- rewrite !(dropUnderscores_cons c), dropUnderscores_underscore,
               !(dropUnderscores_cons u), (IH _ true) by (simpl in *; lia).
             reflexivity.
          -- rewrite !(dropUnderscores_cons c), (IH _ false) by (simpl in *; lia).
             reflexivity. }
  apply (Hgen (String.length s)). lia.
Qed.

Lemma dropUnderscores_spec_pass2 s : dropUnderscores (spec_pass2 s) = dropUnderscores s.
Proof.
  induction s as [|c s IH]; [reflexivity|].
  rewrite spec_pass2_cons, !(dropUnderscores_cons c).
  destruct ((isLower c || isDigit c) && headUpper s);
    rewrite ?dropUnderscores_underscore, IH; reflexivity.
Qed.

(** X7: the two replacements of [outputFile] only insert underscores: the
    rewritten type name without its underscores is the type name without
    its underscores, so no other character is dropped, changed or moved,
    and the result is never shorter than the name. *)
Theorem replacements_only_insert_underscores s :
  dropUnderscores (articleCapMatcher_replace (firstCapMatcher_replace s))
  = dropUnderscores s
  /\ String.length s
     <= String.length (articleCapMatcher_replace (firstCapMatcher_replace s)).
Proof.
  assert (Hdrop : dropUnderscores (articleCapMatcher_replace (firstCapMatcher_replace s))
                  = dropUnderscores s).
  { rewrite articleCapMatcher_replace_spec, dropUnderscores_spec_pass2.
    apply dropUnderscores_firstCap_scan. }
  split; [exact Hdrop|].
  assert (Hlen1 : forall n s b, String.length s <= n ->
                  String.length s <= String.length (firstCap_scan b s)).
  { clear. induction n as [|n IH]; intros s b Hlen.
    - destruct s; [simpl; lia|simpl in Hlen; lia].
    - destruct s as [|c rest]; [simpl; lia|]. simpl in Hlen.
      rewrite firstCap_scan_cons. destruct (b && isLower c).
      + simpl. specialize (IH rest true). lia.
      + destruct rest as [|u [|l after']].
        * simpl. lia.
        * specialize (IH (String u "") false). simpl in *. lia.
        * destruct (negb (Ascii.eqb c (ascii_of_N 10)) && isUpper u && isLower l).
          -- specialize (IH (String l after') true). simpl in *. lia.
          -- specialize (IH (String u (String l after')) false). simpl in *. lia. }
  assert (Hlen2 : forall t, String.length t <= String.length (spec_pass2 t)).
  { induction t as [|c t IH]; [simpl; lia|]. rewrite spec_pass2_cons.
    destruct ((isLower c || isDigit c) && headUpper t); simpl; lia. }
  rewrite articleCapMatcher_replace_spec. unfold firstCapMatcher_replace.
  specialize (Hlen1 (String.length s) s false).
  specialize (Hlen2 (firstCap_scan false s)). lia.
Qed.

Lemma headUpper_spec_pass2 s : headUpper (spec_pass2 s) = headUpper s.
Proof.
  destruct s as [|c s]; [reflexivity|]. rewrite spec_pass2_cons. reflexivity.
Qed.

(** X8: after the second replacement no lower-case letter or digit is
    directly followed by a capital letter: every such boundary of the
    input has got its underscore. *)
Theorem articleCapMatcher_splits_every_boundary s :
  camelBoundary (articleCapMatcher_replace s) = false.
Proof.
  rewrite articleCapMatcher_replace_spec.
  induction s as [|c s IH]; [reflexivity|].
  rewrite spec_pass2_cons.
  destruct ((isLower c || isDigit c) && headUpper s) eqn:Hm.
  - change (camelBoundary (String c (String "_" (spec_pass2 s))))
      with (((isLower c || isDigit c) && false)
            || (false || camelBoundary (spec_pass2 s))).
    rewrite IH, andb_false_r. reflexivity.
  - change (camelBoundary (String c (spec_pass2 s)))
      with (((isLower c || isDigit c) && headUpper (spec_pass2 s))
            || camelBoundary (spec_pass2 s)).
    rewrite headUpper_spec_pass2, Hm, IH. reflexivity.
Qed.

Lemma firstCap_scan_noUpper s b : noUpper s = true -> firstCap_scan b s = s.
Proof.
  revert b. induction s as [|c rest IH]; intros b Hs; [reflexivity|].
  simpl in Hs. apply andb_prop in Hs as [_ Hrest].
  rewrite firstCap_scan_cons. destruct (b && isLower c).
  - rewrite (IH true Hrest). reflexivity.
  - destruct rest as [|u [|l after']]; [reflexivity| |].
    + rewrite (IH false Hrest). reflexivity.
    + simpl in Hrest. apply andb_prop in Hrest as [Hu Hrest'].
      apply negb_true_iff in Hu. rewrite Hu, andb_false_r. simpl andb.
      rewrite (IH false). { reflexivity. }
      simpl. rewrite Hu. exact Hrest'.
Qed.

Lemma spec_pass2_noUpper s : noUpper s = true -> spec_pass2 s = s.
Proof.
  induction s as [|c rest IH]; intros Hs; [reflexivity|].
  simpl in Hs. apply andb_prop in Hs as [_ Hrest].
  rewrite spec_pass2_cons, (IH Hrest).
  destruct rest as [|u rest']; simpl headUpper.
  - rewrite andb_false_r. reflexivity.
  - simpl in Hrest. apply andb_prop in Hrest as [Hu _].
    apply negb_true_iff in Hu. rewrite Hu, andb_false_r. reflexivity.
Qed.

(** X9: a type name without a capital letter is not rewritten: with no
    output override the file is named by the name in lower case followed
    by [_accessor.go], in the directory of the package. *)
Theorem outputFile_without_capitals typeName dir :
  noUpper typeName = true ->
  firstCapMatcher_replace typeName = typeName
  /\ articleCapMatcher_replace typeName = typeName
  /\ outputFile "" typeName dir = Join dir (ToLower typeName +:+ "_accessor.go").
Proof.
  intros Hs.
  assert (H1 : firstCapMatcher_replace typeName = typeName)
    by (apply firstCap_scan_noUpper; exact Hs).
  assert (H2 : articleCapMatcher_replace typeName = typeName)
    by (rewrite articleCapMatcher_replace_spec; apply spec_pass2_noUpper; exact Hs).
  split; [exact H1|]. split; [exact H2|].
  unfold outputFile. simpl String.eqb. cbv iota. rewrite H1, H2.
  rewrite (ToLower_app _ "_accessor.go") by reflexivity. reflexivity.
Qed.

Lemma outputFile_without_capitals_witness :
  outputFile "" "point_3d" "geo" = "geo/point_3d_accessor.go".
Proof.
  destruct (outputFile_without_capitals "point_3d" "geo" eq_refl) as (_ & _ & Hout).
  rewrite Hout. reflexivity.
Defined.

(** ** Receivers, generators and qualifiers *)

(** X10: a receiver that is returned is never empty: the override is
    returned as it is, and the derived receiver is the one byte of an ASCII
    first byte in lower case, or two bytes for a first byte from 0x80 on;
    what follows the first byte of the struct name plays no part. *)
Theorem receiverName_nonempty userInput structName r :
  receiverName userInput structName = Ok r ->
  r <> ""
  /\ (userInput <> "" -> r = userInput)
  /\ (userInput = "" ->
      1 <= String.length r <= 2
      /\ exists b rest,
           structName = String b rest
           /\ forall rest', receiverName "" (String b rest') = Ok r).
Proof.
  unfold receiverName. destruct (String.eqb_spec userInput "") as [->|Hne]; simpl.
  - destruct structName as [|b rest]; [discriminate|]. intros [= <-].
    assert (Hlen : 1 <= String.length (ToLower (string_of_byte b)) <= 2).
    { destruct b as [[] [] [] [] [] [] [] []]; vm_compute; lia. }
    split; [|split].
    + intros Hr. rewrite Hr in Hlen. simpl in Hlen. lia.
    + intros Hne. contradiction.
    + intros _. split; [exact Hlen|]. exists b, rest. split; reflexivity.
  - intros [= <-]. split; [exact Hne|]. split; [reflexivity|]. intros He. contradiction.
Qed.

Lemma receiverName_nonempty_witness :
  "ã" <> ""
  /\ ("" <> "" -> "ã" = "")
  /\ ("" = "" ->
      1 <= String.length "ã" <= 2
      /\ exists b rest,
           "État" = String b rest
           /\ forall rest', receiverName "" (String b rest') = Ok "ã").
Proof.
  apply (receiverName_nonempty "" "État" "ã"). vm_compute. reflexivity.
Defined.

Lemma receiverName_returns_iff receiver structName :
  (exists r, receiverName receiver structName = Ok r) <->
  receiver <> "" \/ structName <> "".
Proof.
  unfold receiverName. destruct (String.eqb_spec receiver "") as [->|Hne]; simpl.
  - destruct structName; split.
    + intros [r Hr]. discriminate.
    + intros [Hr|Hs]; contradiction.
    + intros _. right. discriminate.
    + intros _. eexists. reflexivity.
  - split; [intros _; left; exact Hne|intros _; eexists; reflexivity].
Qed.

Lemma rendered_outcome receiver structName (entry : option string)
    (render : string -> string -> string) :
  let res := match entry with
             | Some m => r <- receiverName receiver structName ;; Ok (render r m)
             | None => Panic nil_dereference
             end in
  ((exists text, res = Ok text) <->
   is_Some entry /\ (receiver <> "" \/ structName <> ""))
  /\ (entry = None -> res = Panic nil_dereference)
  /\ (forall e, res <> Err e).
Proof.
  pose proof (receiverName_returns_iff receiver structName) as Hrecv.
  destruct entry as [m|]; simpl.
  - destruct (receiverName receiver structName) as [r|e|msg] eqn:Hr; simpl.
    + split; [|split; discriminate]. split.
      * intros _. split; [eexists; reflexivity|]. apply Hrecv. eauto.
      * intros _. eexists. reflexivity.
    + exfalso. unfold receiverName in Hr. destruct (negb _); [discriminate|].
      destruct structName; discriminate.
    + split; [|split; discriminate]. split.
      * intros [text Ht]. discriminate.
      * intros [_ Hor]. apply Hrecv in Hor as [r Hr']. discriminate.
  - split; [|split; [reflexivity|discriminate]]. split.
    + intros [text Ht]. discriminate.
    + intros [[m Hm] _]. discriminate.
Qed.

(** X11: the closure of [getterGenerator] returns a function text exactly
    when the field has a tag with a getter entry and a receiver can be
    derived, and that of [setterGenerator] likewise with the setter entry;
    on a field without the tag or without the entry the dereference of the
    nil pointer panics, and neither closure ever returns an error. *)
Theorem generators_return_iff receiver structName field :
  (((exists text, getterGenerator receiver structName field = Ok text) <->
    is_Some (fld_Tag field ≫= tag_Getter)
    /\ (receiver <> "" \/ structName <> ""))
   /\ (fld_Tag field ≫= tag_Getter = None ->
       getterGenerator receiver structName field = Panic nil_dereference)
   /\ (forall e, getterGenerator receiver structName field <> Err e))
  /\ (((exists text, setterGenerator receiver structName field = Ok text) <->
       is_Some (fld_Tag field ≫= tag_Setter)
       /\ (receiver <> "" \/ structName <> ""))
      /\ (fld_Tag field ≫= tag_Setter = None ->
          setterGenerator receiver structName field = Panic nil_dereference)
      /\ (forall e, setterGenerator receiver structName field <> Err e)).
Proof.
  split.
  - replace (getterGenerator receiver structName field)
      with (match fld_Tag field ≫= tag_Getter with
            | Some m =>
                r <- receiverName receiver structName ;;
                Ok (getter_tpl r structName
                      (if String.eqb m "" then Title (fld_Name field) else m)
                      (fld_Name field) (fld_DataType field))
            | None => Panic nil_dereference
            end).
    + apply (rendered_outcome receiver structName (fld_Tag field ≫= tag_Getter)
               (fun r m => getter_tpl r structName
                             (if String.eqb m "" then Title (fld_Name field) else m)
                             (fld_Name field) (fld_DataType field))).
    + unfold getterGenerator. destruct (fld_Tag field) as [tag|]; simpl;
        [destruct (tag_Getter tag)|]; reflexivity.
  - replace (setterGenerator receiver structName field)
      with (match fld_Tag field ≫= tag_Setter with
            | Some m =>
                r <- receiverName receiver structName ;;
                Ok (setter_tpl r structName
                      (if String.eqb m "" then "Set" +:+ Title (fld_Name field) else m)
                      (fld_Name field) (fld_DataType field))
            | None => Panic nil_dereference
            end).
    + apply (rendered_outcome receiver structName (fld_Tag field ≫= tag_Setter)
               (fun r m => setter_tpl r structName
                             (if String.eqb m ""
                              then "Set" +:+ Title (fld_Name field) else m)
                             (fld_Name field) (fld_DataType field))).
    + unfold setterGenerator. destruct (fld_Tag field) as [tag|]; simpl;
        [destruct (tag_Setter tag)|]; reflexivity.
Qed.

Lemma Split_dot_qualified q rest :
  hasDot q = false -> Split_dot (q +:+ "." +:+ rest) = q :: Split_dot rest.
Proof.
  induction q as [|c q IH]; intros Hq; [reflexivity|].
  rewrite hasDot_cons in Hq. apply orb_false_elim in Hq as [Hc Hq].
  change (String c q +:+ "." +:+ rest) with (String c (q +:+ "." +:+ rest)).
  rewrite Split_dot_cons, Hc, (IH Hq). reflexivity.
Qed.

(** X12: the qualifier of a declared type [q.T] is [q], with or without
    one pointer marker in front; only one marker is removed, and the
    qualifier itself never holds a dot. *)
Theorem typePkgOf_qualified name tag q rest :
  hasDot q = false ->
  (forall q', q <> String "*" q') ->
  typePkgOf {| fld_Name := name; fld_DataType := q +:+ "." +:+ rest; fld_Tag := tag |}
  = q
  /\ typePkgOf {| fld_Name := name; fld_DataType := "*" +:+ q +:+ "." +:+ rest;
                  fld_Tag := tag |} = q
  /\ typePkgOf {| fld_Name := name; fld_DataType := "**" +:+ q +:+ "." +:+ rest;
                  fld_Tag := tag |} = "*" +:+ q
  /\ forall field, hasDot (typePkgOf field) = false.
Proof.
  intros Hq Hstar.
  assert (Htrim : TrimPrefix_star (q +:+ "." +:+ rest) = q +:+ "." +:+ rest).
  { destruct q as [|c q]; [reflexivity|].
    change (String c q +:+ "." +:+ rest) with (String c (q +:+ "." +:+ rest)).
    unfold TrimPrefix_star.
    destruct c as [[] [] [] [] [] [] [] []]; try reflexivity.
    exfalso. apply (Hstar q). reflexivity. }
  split; [|split; [|split]].
  - unfold typePkgOf. simpl fld_DataType. rewrite Htrim, (Split_dot_qualified _ _ Hq).
    reflexivity.
  - unfold typePkgOf. simpl fld_DataType.
    change (TrimPrefix_star ("*" +:+ q +:+ "." +:+ rest)) with (q +:+ "." +:+ rest).
    rewrite (Split_dot_qualified _ _ Hq). reflexivity.
  - unfold typePkgOf. simpl fld_DataType.
    change (TrimPrefix_star ("**" +:+ q +:+ "." +:+ rest))
      with (("*" +:+ q) +:+ "." +:+ rest).
    rewrite Split_dot_qualified; [reflexivity|].
    change ("*" +:+ q) with (String "*" q). rewrite hasDot_cons. exact Hq.
  - intros field. unfold typePkgOf.
    generalize (TrimPrefix_star (fld_DataType field)). intros s.
    induction s as [|c s IH]; [reflexivity|].
    rewrite Split_dot_cons. destruct (Ascii.eqb c ".") eqn:Hc; [reflexivity|].
    destruct (Split_dot s) as [|piece pieces]; rewrite hasDot_cons, Hc; [reflexivity|].
    exact IH.
Qed.

Lemma typePkgOf_qualified_witness :
  typePkgOf {| fld_Name := "at"; fld_DataType := "time" +:+ "." +:+ "Time";
               fld_Tag := None |} = "time"
  /\ typePkgOf {| fld_Name := "at"; fld_DataType := "*" +:+ "time" +:+ "." +:+ "Time";
                  fld_Tag := None |} = "time"
  /\ typePkgOf {| fld_Name := "at"; fld_DataType := "**" +:+ "time" +:+ "." +:+ "Time";
                  fld_Tag := None |} = "*" +:+ "time"
  /\ forall field, hasDot (typePkgOf field) = false.
Proof.
  apply (typePkgOf_qualified "at" None "time" "Time").
  - reflexivity.
  - discriminate.
Defined.

(** ** The command *)

Lemma Generate_panic {F} `{Fs F} format_Source range_keys (fs fs' : F)
    pkg typeName output receiver msg :
  Generate format_Source range_keys fs pkg typeName output receiver = (fs', Panic msg) ->
  walk pkg typeName receiver = Panic msg.
Proof.
  unfold Generate.
  destruct (walk pkg typeName receiver) as [[imports accessors]|e|m].
  - destruct (format _ _) as [content [err|]]; [discriminate|].
    destruct (WriteFile fs _ content 420%N) as [fs1 [err|]]; discriminate.
  - discriminate.
  - intros [= _ <-]. reflexivity.
Qed.

Lemma Generate_ok {F} `{Fs F} format_Source range_keys (fs fs' : F)
    pkg typeName output receiver u :
  Generate format_Source range_keys fs pkg typeName output receiver = (fs', Ok u) ->
  exists imports accessors content,
    walk pkg typeName receiver = Ok (imports, accessors)
    /\ format_Source
         (buf (write range_keys {| buf := "" |} (pkg_Name pkg) imports accessors))
       = inl content
    /\ WriteFile fs (outputFile output typeName (pkg_Dir pkg)) content 420%N
       = (fs', None).
Proof.
  unfold Generate.
  destruct (walk pkg typeName receiver) as [[imports accessors]|e|m];
    [|discriminate|discriminate].
  unfold format.
  destruct (format_Source _) as [content|err] eqn:Hfmt; [|discriminate].
  destruct (WriteFile fs _ content 420%N) as [fs1 [err|]] eqn:Hwr; [discriminate|].
  intros [= <-]. exists imports, accessors, content. auto.
Qed.

(** X13: [Execute] panics only when it is called without any argument
    (the index of [args[0]] is then out of range).  With arguments it
    never does: it reaches [Generate] only with a type name that is not
    empty, and then a receiver can be derived for every struct that is
    selected. *)
Theorem Execute_panics_iff {F} `{Fs F} format_Source range_keys
    flags_Parse os_Stat ParsePackage (fs : F) args msg :
  (Execute format_Source range_keys flags_Parse os_Stat ParsePackage fs args).2
  = Panicked msg
  <-> args = [] /\ msg = index_out_of_range.
Proof.
  destruct args as [|name rest]; simpl.
  - split; [intros [= <-]; auto|intros [_ ->]; reflexivity].
  - split; [|intros [Hnil _]; discriminate]. intros Hend. exfalso.
    destruct (flags_Parse rest) as [flags|err]; [|discriminate].
    destruct (flag_version flags); [discriminate|].
    destruct (Nat.eqb_spec (String.length (flag_type flags)) 0) as [|Hlen];
      [discriminate|].
    unfold isDir in Hend.
    destruct (os_Stat _) as [[|]|err]; [|discriminate|discriminate].
    destruct (ParsePackage _) as [pkg|err]; [|discriminate].
    destruct (Generate _ _ fs pkg (flag_type flags) (flag_output flags)
                (flag_receiver flags)) as [fs' [u|e|m]] eqn:Hgen; try discriminate.
    apply Generate_panic in Hgen.
    apply (proj2 (walk_outcome pkg _ _)) in Hgen as (_ & _ & Htype & _).
    rewrite Htype in Hlen. apply Hlen. reflexivity.
Qed.

(** X14: when [Execute] returns, the generated file has been written: the
    arguments were parsed, the version was not asked for, the type name is
    not empty, the directory (the first remaining argument, [.] when there
    is none) exists and holds a package, and the formatted accessors of
    that package were written without an error to the output path, which
    is resolved in the directory the scanner reports. *)
Theorem Execute_returns_after_write {F} `{Fs F} format_Source range_keys
    flags_Parse os_Stat ParsePackage (fs fs' : F) args :
  Execute format_Source range_keys flags_Parse os_Stat ParsePackage fs args
  = (fs', Returned) ->
  exists name rest flags pkg imports accessors content,
    args = name :: rest
    /\ flags_Parse rest = inl flags
    /\ flag_version flags = false
    /\ flag_type flags <> ""
    /\ os_Stat (List.hd "." (flag_Args flags)) = inl true
    /\ ParsePackage (List.hd "." (flag_Args flags)) = inl pkg
    /\ walk pkg (flag_type flags) (flag_receiver flags) = Ok (imports, accessors)
    /\ format_Source
         (buf (write range_keys {| buf := "" |} (pkg_Name pkg) imports accessors))
       = inl content
    /\ WriteFile fs
         (outputFile (flag_output flags) (flag_type flags) (pkg_Dir pkg))
         content 420%N
       = (fs', None).
Proof.
  destruct args as [|name rest]; simpl; [discriminate|].
  destruct (flags_Parse rest) as [flags|err] eqn:Hparse; [|discriminate].
  destruct (flag_version flags) eqn:Hversion; [discriminate|].
  destruct (Nat.eqb_spec (String.length (flag_type flags)) 0) as [|Hlen];
    [discriminate|].
  unfold isDir.
  replace (match flag_Args flags with cliArg :: _ => cliArg | [] => "." end)
    with (List.hd "." (flag_Args flags)) by (destruct (flag_Args flags); reflexivity).
  destruct (os_Stat _) as [[|]|err] eqn:Hstat; [|discriminate|discriminate].
  destruct (ParsePackage _) as [pkg|err] eqn:Hpkg; [|discriminate].
  destruct (Generate _ _ fs pkg (flag_type flags) (flag_output flags)
              (flag_receiver flags)) as [fs1 [u|e|m]] eqn:Hgen; try discriminate.
  intros [= <-].
  apply Generate_ok in Hgen as (imports & accessors & content & Hw & Hfmt & Hwr).
  exists name, rest, flags, pkg, imports, accessors, content.
  repeat split; try assumption.
  intros Htype. rewrite Htype in Hlen. apply Hlen. reflexivity.
Qed.

Lemma Execute_returns_after_write_witness :
  exists name rest flags pkg imports accessors content,
    ["accessory"; "User"; ""; ""; "model"] = name :: rest
    /\ parse_positional rest = inl flags
    /\ flag_version flags = false
    /\ flag_type flags <> ""
    /\ stat_dir (List.hd "." (flag_Args flags)) = inl true
    /\ scan_user (List.hd "." (flag_Args flags)) = inl pkg
    /\ walk pkg (flag_type flags) (flag_receiver flags) = Ok (imports, accessors)
    /\ fmt_accept
         (buf (write range_canonical {| buf := "" |} (pkg_Name pkg) imports accessors))
       = inl content
    /\ WriteFile (∅ : gmap string string)
         (outputFile (flag_output flags) (flag_type flags) (pkg_Dir pkg))
         content 420%N
       = ((Execute fmt_accept range_canonical parse_positional stat_dir scan_user
             (∅ : gmap string string)
             ["accessory"; "User"; ""; ""; "model"]).1, None).
Proof.
  apply (Execute_returns_after_write fmt_accept range_canonical parse_positional
           stat_dir scan_user (∅ : gmap string string)).
  vm_compute. reflexivity.
Defined.

(** ** Import lines *)

Lemma hasSlash_cons c s : hasSlash (String c s) = Ascii.eqb "/" c || hasSlash s.
Proof. reflexivity. Qed.

Lemma hasSlash_app_slash x a : hasSlash (x +:+ "/" +:+ a) = true.
Proof.
  induction x as [|c x IH]; [reflexivity|].
  change (String c x +:+ "/" +:+ a) with (String c (x +:+ "/" +:+ a)).
  rewrite hasSlash_cons, IH. apply orb_true_r.
Qed.

Lemma dropTrailingSlashes_cons c s :
  dropTrailingSlashes (String c s)
  = match dropTrailingSlashes s with
    | "" => if Ascii.eqb c "/" then "" else String c ""
    | String d rest' => String c (String d rest')
    end.
Proof. reflexivity. Qed.

Lemma lastElement_cons c s :
  lastElement (String c s)
  = if hasSlash s then lastElement s
    else if Ascii.eqb c "/" then s else String c s.
Proof. reflexivity. Qed.

Lemma dropTrailingSlashes_element a :
  hasSlash a = false -> dropTrailingSlashes a = a.
Proof.
  induction a as [|c a IH]; intros Ha; [reflexivity|].
  rewrite hasSlash_cons in Ha. apply orb_false_elim in Ha as [Hc Ha].
  rewrite dropTrailingSlashes_cons, (IH Ha), (Ascii.eqb_sym c "/"), Hc.
  destruct a; reflexivity.
Qed.

Lemma dropTrailingSlashes_ends x a :
  a <> "" -> hasSlash a = false -> dropTrailingSlashes (x +:+ a) = x +:+ a.
Proof.
  intros Hne Ha. induction x as [|c x IH].
  - apply dropTrailingSlashes_element. exact Ha.
  - change (String c x +:+ a) with (String c (x +:+ a)).
    rewrite dropTrailingSlashes_cons, IH.
    destruct (x +:+ a) eqn:Hxa; [|reflexivity].
    destruct x; [|discriminate]. contradiction.
Qed.

Lemma lastElement_element a : hasSlash a = false -> lastElement a = a.
Proof.
  destruct a as [|c a]; intros Ha; [reflexivity|].
  rewrite hasSlash_cons in Ha. apply orb_false_elim in Ha as [Hc Ha].
  rewrite lastElement_cons, Ha, (Ascii.eqb_sym c "/"), Hc. reflexivity.
Qed.

Lemma lastElement_after_slash x a :
  hasSlash a = false -> lastElement (x +:+ "/" +:+ a) = a.
Proof.
  intros Ha. induction x as [|c x IH].
  - change ("" +:+ "/" +:+ a) with (String "/" a).
    rewrite lastElement_cons, Ha. reflexivity.
  - change (String c x +:+ "/" +:+ a) with (String c (x +:+ "/" +:+ a)).
    rewrite lastElement_cons, hasSlash_app_slash. exact IH.
Qed.

Lemma Base_element a : a <> "" -> hasSlash a = false -> Base a = a.
Proof.
  intros Hne Ha. unfold Base.
  destruct (String.eqb_spec a "") as [|_]; [contradiction|].
  rewrite (dropTrailingSlashes_element a Ha), (lastElement_element a Ha).
  destruct a; [contradiction|reflexivity].
Qed.

Lemma Base_after_slash x a :
  a <> "" -> hasSlash a = false -> Base (x +:+ "/" +:+ a) = a.
Proof.
  intros Hne Ha. unfold Base.
  destruct (String.eqb_spec (x +:+ "/" +:+ a) "") as [Hnil|_].
  { destruct x; discriminate. }
  change (x +:+ "/" +:+ a) with (x +:+ String "/" a).
  replace (x +:+ String "/" a) with ((x +:+ "/") +:+ a)
    by (rewrite append_assoc; reflexivity).
  rewrite (dropTrailingSlashes_ends _ a Hne Ha), append_assoc.
  change ("/" +:+ a) with (String "/" a).
  change (x +:+ String "/" a) with (x +:+ "/" +:+ a).
  rewrite (lastElement_after_slash x a Ha).
  destruct a; [contradiction|reflexivity].
Qed.

(** X15: an import is printed as its bare path exactly when its alias is
    the last element of the path, and with the alias in front of the path
    otherwise; this holds for a path of one element as for a path whose
    last element follows a slash. *)
Theorem importLine_bare_iff (importMap : gmap string string) name dir elem :
  elem <> "" -> hasSlash elem = false ->
  (importMap !! name = Some elem ->
   importLine importMap name
   = if decide (name = elem) then tab +:+ dq +:+ elem +:+ dq +:+ nl
     else tab +:+ name +:+ " " +:+ dq +:+ elem +:+ dq +:+ nl)
  /\ (importMap !! name = Some (dir +:+ "/" +:+ elem) ->
      importLine importMap name
      = if decide (name = elem)
        then tab +:+ dq +:+ (dir +:+ "/" +:+ elem) +:+ dq +:+ nl
        else tab +:+ name +:+ " " +:+ dq +:+ (dir +:+ "/" +:+ elem) +:+ dq +:+ nl).
Proof.
  intros Hne Helem. split; intros Hm; unfold importLine; rewrite Hm; simpl default.
  - rewrite (Base_element elem Hne Helem).
    destruct (String.eqb_spec name elem), (decide (name = elem));
      try contradiction; reflexivity.
  - rewrite (Base_after_slash dir elem Hne Helem).
    destruct (String.eqb_spec name elem), (decide (name = elem));
      try contradiction; reflexivity.
Qed.

Lemma importLine_bare_iff_witness :
  importLine {[ "fs" := "github.com/spf13" +:+ "/" +:+ "afero" ]} "fs"
  = tab +:+ "fs" +:+ " " +:+ dq +:+ ("github.com/spf13" +:+ "/" +:+ "afero")
    +:+ dq +:+ nl.
Proof.
  destruct (importLine_bare_iff {[ "fs" := "github.com/spf13" +:+ "/" +:+ "afero" ]}
              "fs" "github.com/spf13" "afero") as [_ Hline].
  - discriminate.
  - reflexivity.
  - rewrite Hline by (vm_compute; reflexivity). reflexivity.
Defined.
